(** * The tab-split state store

    A shallow embedding of [TabSplit.store] (the store of the tab-split
    browser extension) and the proofs of the properties stated about it.

    Conventions of the embedding:
    - the store object is a record [Store]; its methods are computations
      in a state-and-exception monad [M] over that record, so that a
      [throw] keeps whatever the method had already written;
    - [distribution] values are JavaScript numbers: IEEE 754 binary64,
      modelled by the Standard Library's executable [spec_float];
    - [windowWidth], [col] and the id counter are integral numbers,
      modelled by [Z] and [nat] (JavaScript represents integers exactly
      up to 2^53, far beyond what the counter can reach in practice);
    - the state object has exactly two shapes in the program: the five
      fields written by [_resetState], and the literal
      [{ status: "status_destroyed" }];
    - a listener is an opaque identity; calling its [onStateChange] is
      recorded in the outcome of [update], listeners do not call back into
      the store while they run;
    - [TabSplit.utils] is not part of the store: it is the parameter of
      [init], a record of two lookups of which only the truthiness is
      used; the lookups read the state they are given and write nothing. *)

From Stdlib Require Import ZArith SpecFloat.
From stdpp Require Import gmap strings list fin_maps pretty.

Local Open Scope Z_scope.

(** ** JavaScript numbers *)

Module JSNumber.

Definition prec : Z := 53.
Definition emax : Z := 1024.

Definition number : Type := spec_float.

Definition of_Z (z : Z) : number := binary_normalize prec emax z 0 false.

Definition zero : number := S754_zero false.
Definition one : number := Eval vm_compute in of_Z 1.

(** [x + y], [x / y] *)
Definition add (x y : number) : number := SFadd prec emax x y.
Definition div (x y : number) : number := SFdiv prec emax x y.

(** [x < y], [x <= y], [x >= y], [x == y], [x != y] *)
Definition lt (x y : number) : bool := SFltb x y.
Definition le (x y : number) : bool := SFleb x y.
Definition ge (x y : number) : bool := SFleb y x.
Definition eq (x y : number) : bool := SFeqb x y.
Definition neq (x y : number) : bool := negb (SFeqb x y).

Definition is_nan (x : number) : bool :=
  match x with S754_nan => true | _ => false end.

End JSNumber.

Import JSNumber.

Global Arguments add : simpl never.
Global Arguments div : simpl never.
Global Arguments lt : simpl never.
Global Arguments le : simpl never.
Global Arguments ge : simpl never.
Global Arguments eq : simpl never.
Global Arguments neq : simpl never.

(** ** The data model *)

Inductive Status : Set :=
| status_active
| status_inactive
| status_destroyed.

Global Instance Status_eq_dec : EqDecision Status.
Proof. solve_decision. Defined.

Record Tab : Type := mkTab {
  linkedPanel : string;
  col : Z;
  distribution : number;
}.

Record TabGroup : Type := mkTabGroup {
  id : string;
  color : string;
  layout : string;
  tabs : list Tab;
}.

(** The fields of the state object besides [status]. *)
Record StateFields : Type := mkStateFields {
  windowWidth : Z;
  selectedLinkedPanel : string;
  tabGroupIds : list string;
  tabGroups : gmap string TabGroup;
}.

Inductive State : Type :=
| FullState (st : Status) (f : StateFields)
| DestroyedOnly.                  (* { status: "status_destroyed" } *)

Definition status (s : State) : Status :=
  match s with
  | FullState st _ => st
  | DestroyedOnly => status_destroyed
  end.

(** [TabSplit.utils], as far as the store uses it. *)
Record Utils : Type := mkUtils {
  getTabByLinkedPanel : string → bool;
  getTabGroupByLinkedPanel : string → State → bool;
}.

Definition Listener : Set := nat.

Record Store : Type := mkStore {
  _utils : Utils;
  _tabGroupIdCount : nat;
  _listeners : option (gset Listener);       (* [None] is [null] *)
  _state : State;
}.

Definition TAB_GROUP_ID_PREFIX : string := "tabsplit-tab-group-id-".

Definition VALID_LAYOUTS : list string := [ "column_split" ].

(** ** Actions *)

(** An action is [{ type, value }]; [other_action type] stands for a type
    that is none of the eight the [switch] knows. *)
Inductive Action : Type :=
| set_active
| set_inactive
| set_destroyed
| update_window_width (v : Z)
| update_selected_linkedPanel (v : string)
| add_tab_group (v : TabGroup)
| remove_tab_group (v : string)
| update_tab_distibutions (v_id : string) (v_distributions : list number)
| other_action (type : string).

(** What the code throws; one constructor per [throw]. *)
Inductive Exn : Type :=
| StatusIsDestroyed
| SetActiveOnActive
| SetInactiveOnNotActive
| InvalidWindowWidth (v : Z)
| UnknownSelectedLinkedPanel (v : string)
| UnknownActionType (type : string)
| InvalidSplitLayout (layout : string)
| LackColor
| UnexpectedTabsLength (n : nat)
| ColumnMismatch (panel : string) (i : nat) (c : Z)
| InvalidTab (panel : string)
| AlreadySplit (panel : string)
| AddedTwice (panel : string)
| DistributionSumNotOne (sum : number) (panels : list string)
| TypeError.

(** ** The monad of the store's methods *)

Inductive Completion (A : Type) : Type :=
| Normal (a : A)
| Throw (e : Exn).
Arguments Normal {A} a.
Arguments Throw {A} e.

Definition M (A : Type) : Type := Store → Store * Completion A.

Global Instance M_ret : MRet M := λ A a s, (s, Normal a).

Global Instance M_bind : MBind M := λ A B k m s,
  match m s with
  | (s', Normal a) => k a s'
  | (s', Throw e) => (s', Throw e)
  end.

Definition throw {A : Type} (e : Exn) : M A := λ s, (s, Throw e).
Definition this : M Store := λ s, (s, Normal s).
Definition assign (f : Store → Store) : M unit := λ s, (f s, Normal tt).

Definition set__state (st : State) (s : Store) : Store :=
  {| _utils := _utils s; _tabGroupIdCount := _tabGroupIdCount s;
     _listeners := _listeners s; _state := st |}.

Definition set__tabGroupIdCount (n : nat) (s : Store) : Store :=
  {| _utils := _utils s; _tabGroupIdCount := n;
     _listeners := _listeners s; _state := _state s |}.

Definition set__listeners (l : option (gset Listener)) (s : Store) : Store :=
  {| _utils := _utils s; _tabGroupIdCount := _tabGroupIdCount s;
     _listeners := l; _state := _state s |}.

Definition set_windowWidth (v : Z) (f : StateFields) : StateFields :=
  {| windowWidth := v; selectedLinkedPanel := selectedLinkedPanel f;
     tabGroupIds := tabGroupIds f; tabGroups := tabGroups f |}.

Definition set_selectedLinkedPanel (v : string) (f : StateFields) : StateFields :=
  {| windowWidth := windowWidth f; selectedLinkedPanel := v;
     tabGroupIds := tabGroupIds f; tabGroups := tabGroups f |}.

(** ** The store's methods *)

Definition initial_fields : StateFields :=
  {| windowWidth := -1; selectedLinkedPanel := "";
     tabGroupIds := []; tabGroups := ∅ |}.

Definition _resetState : M unit :=
  assign (set__state (FullState status_inactive initial_fields)).

Definition init (utils : Utils) : Store :=
  {| _utils := utils;
     _state := FullState status_inactive initial_fields;
     _tabGroupIdCount := 0;
     _listeners := Some ∅ |}.

(** [JSON.parse(JSON.stringify(obj))]: values of the model are immutable,
    and strings, integers and finite numbers survive the round trip. *)
Definition _copy {A : Type} (obj : A) : A := obj.

Definition getState (s : Store) : State := _copy (_state s).

Definition _isValidTab (utils : Utils) (tab : Tab) : bool :=
  if ((col tab <? 0) || (col tab >? 1))
     || (le (distribution tab) zero || ge (distribution tab) one)
     || negb (getTabByLinkedPanel utils (linkedPanel tab))
  then false
  else true.

(** The body of the [for] loop of [_addTabGroup], from index [i] on, with
    the loop's variables [seenPanels] and [distributionSum]. *)
Fixpoint _addTabGroup_loop (utils : Utils) (state : State) (tabs : list Tab)
    (i : nat) (seenPanels : list string) (distributionSum : number)
    : Completion number :=
  match tabs with
  | [] => Normal distributionSum
  | t :: tabs' =>
      if negb (col t =? Z.of_nat i) then
        Throw (ColumnMismatch (linkedPanel t) i (col t))
      else if negb (_isValidTab utils t) then
        Throw (InvalidTab (linkedPanel t))
      else if getTabGroupByLinkedPanel utils (linkedPanel t) state then
        Throw (AlreadySplit (linkedPanel t))
      else if bool_decide (linkedPanel t ∈ seenPanels) then
        Throw (AddedTwice (linkedPanel t))
      else
        _addTabGroup_loop utils state tabs' (S i)
          (seenPanels ++ [linkedPanel t])
          (add distributionSum (distribution t))
  end.

Definition completed {A : Type} (c : Completion A) : M A := λ s, (s, c).

Definition new_id (count : nat) : string := TAB_GROUP_ID_PREFIX +:+ pretty count.

Definition with_id (newId : string) (g : TabGroup) : TabGroup :=
  {| id := newId; color := color g; layout := layout g; tabs := tabs g |}.

(** [tabGroups[newGroup.id] = newGroup; tabGroupIds.push(newGroup.id)] *)
Definition store_group (newGroup : TabGroup) (f : StateFields) : StateFields :=
  {| windowWidth := windowWidth f; selectedLinkedPanel := selectedLinkedPanel f;
     tabGroupIds := tabGroupIds f ++ [id newGroup];
     tabGroups := <[id newGroup := newGroup]> (tabGroups f) |}.

Definition _addTabGroup (newTabGroup : TabGroup) : M string :=
  if negb (bool_decide (layout newTabGroup ∈ VALID_LAYOUTS)) then
    throw (InvalidSplitLayout (layout newTabGroup))
  else if bool_decide (color newTabGroup = "") then
    throw LackColor
  else if negb (length (tabs newTabGroup) =? 2)%nat then
    throw (UnexpectedTabsLength (length (tabs newTabGroup)))
  else
    s ← this;
    distributionSum ←
      completed (_addTabGroup_loop (_utils s) (_state s) (tabs newTabGroup) 0 [] zero);
    if neq distributionSum one then
      throw (DistributionSumNotOne distributionSum (linkedPanel <$> tabs newTabGroup))
    else
      let newGroup := with_id (new_id (_tabGroupIdCount s)) (_copy newTabGroup) in
      assign (set__tabGroupIdCount (S (_tabGroupIdCount s)));;
      match _state s with
      | FullState st f =>
          assign (set__state (FullState st (store_group newGroup f)));;
          mret (id newGroup)
      | DestroyedOnly => throw TypeError    (* no [tabGroups] to write to *)
      end.

Definition _removeTabGroup (id : string) : M unit := mret tt.

Definition _updateTabDistributions (id : string) (distributions : list number)
    : M unit := mret tt.

(** ** [update] *)

(** The argument [{ added, removed, updated }] of [onStateChange]. *)
Record TabGroupsDiff : Type := mkDiff {
  added : list string;
  removed : list string;
  updated : list string;
}.

(** The local variables of [update]. *)
Record Locals : Type := mkLocals {
  diff : TabGroupsDiff;
  dirty : bool;
}.

Definition locals0 : Locals :=
  {| diff := {| added := []; removed := []; updated := [] |}; dirty := false |}.

Definition set_dirty (l : Locals) : Locals := {| diff := diff l; dirty := true |}.

Definition push_added (x : string) (l : Locals) : Locals :=
  {| diff := {| added := added (diff l) ++ [x]; removed := removed (diff l);
                updated := updated (diff l) |};
     dirty := dirty l |}.

Definition push_removed (x : string) (l : Locals) : Locals :=
  {| diff := {| added := added (diff l); removed := removed (diff l) ++ [x];
                updated := updated (diff l) |};
     dirty := dirty l |}.

Definition push_updated (x : string) (l : Locals) : Locals :=
  {| diff := {| added := added (diff l); removed := removed (diff l);
                updated := updated (diff l) ++ [x] |};
     dirty := dirty l |}.

(** The [try] block: one action of the batch. *)
Definition try_action (action : Action) (l : Locals) : M Locals :=
  s ← this;
  match _state s with
  | DestroyedOnly => throw StatusIsDestroyed
  | FullState st f =>
      if bool_decide (st = status_destroyed) then throw StatusIsDestroyed
      else
        match action with
        | set_active =>
            if bool_decide (st ≠ status_active) then
              assign (set__state (FullState status_active f));;
              mret (set_dirty l)
            else throw SetActiveOnActive
        | set_inactive =>
            if bool_decide (st = status_active) then
              assign (set__state (FullState status_inactive f));;
              mret (set_dirty l)
            else throw SetInactiveOnNotActive
        | set_destroyed =>
            assign (set__state (FullState status_destroyed f));;
            mret (set_dirty l)
        | update_window_width v =>
            if v <=? 0 then throw (InvalidWindowWidth v)
            else if bool_decide (v ≠ windowWidth f) then
              assign (set__state (FullState st (set_windowWidth v f)));;
              mret (set_dirty l)
            else mret l
        | update_selected_linkedPanel v =>
            if negb (getTabByLinkedPanel (_utils s) v) then
              throw (UnknownSelectedLinkedPanel v)
            else
              assign (set__state (FullState st (set_selectedLinkedPanel v f)));;
              mret (set_dirty l)
        | add_tab_group v =>
            newId ← _addTabGroup v;
            mret (set_dirty (push_added newId l))
        | remove_tab_group v =>
            _removeTabGroup v;;
            mret (set_dirty (push_removed v l))
        | update_tab_distibutions v_id v_distributions =>
            _updateTabDistributions v_id v_distributions;;
            mret (set_dirty (push_updated v_id l))
        | other_action type => throw (UnknownActionType type)
        end
  end.

(** The [for (let action of actions)] loop; the first [Throw] ends it. *)
Fixpoint for_actions (actions : list Action) (l : Locals) : M Locals :=
  match actions with
  | [] => mret l
  | action :: actions' => l' ← try_action action l; for_actions actions' l'
  end.

(** One call [listener.onStateChange(this, { added, removed, updated })]. *)
Record Call : Type := mkCall {
  listener : Listener;
  tabGroupsDiff : TabGroupsDiff;
}.

(** What a call of [update] does besides changing the store. *)
Record Outcome : Type := mkOutcome {
  store_after : Store;
  calls : list Call;                 (* [onStateChange] calls, in order *)
  console_error : option Exn;        (* the exception caught and logged *)
  uncaught : option Exn;             (* an exception that leaves [update] *)
}.

(** The part of [update] under [if (dirty)], before the listeners run. *)
Definition settle (s : Store) : Store :=
  match status (_state s) with
  | status_inactive => fst (_resetState s)
  | status_destroyed => set__state DestroyedOnly s
  | status_active => s
  end.

Definition update (actions : list Action) (s : Store) : Outcome :=
  match for_actions actions locals0 s with
  | (s1, Throw e) =>
      {| store_after := s1; calls := []; console_error := Some e; uncaught := None |}
  | (s1, Normal l) =>
      if dirty l then
        let s2 := settle s1 in
        match _listeners s2 with
        | None =>                     (* [null.forEach] *)
            {| store_after := s2; calls := []; console_error := None;
               uncaught := Some TypeError |}
        | Some listeners =>
            {| store_after :=
                 if bool_decide (status (_state s2) = status_destroyed)
                 then set__listeners None s2 else s2;
               calls := (λ x, {| listener := x; tabGroupsDiff := diff l |})
                          <$> elements listeners;
               console_error := None; uncaught := None |}
        end
      else
        {| store_after := s1; calls := []; console_error := None; uncaught := None |}
  end.

(** [subscribe] and [unsubscribe]; on a [null] listener set they throw and
    leave the store as it is. *)
Definition subscribe (x : Listener) : M unit :=
  s ← this;
  match _listeners s with
  | None => throw TypeError
  | Some listeners =>
      if negb (bool_decide (x ∈ listeners)) then
        assign (set__listeners (Some (listeners ∪ {[x]})))
      else mret tt
  end.

Definition unsubscribe (x : Listener) : M unit :=
  s ← this;
  match _listeners s with
  | None => throw TypeError
  | Some listeners =>
      if bool_decide (x ∈ listeners) then
        assign (set__listeners (Some (listeners ∖ {[x]})))
      else mret tt
  end.

(** ** A life of the store: [init], then calls from outside *)

Inductive Op : Type :=
| call_update (actions : list Action)
| call_subscribe (x : Listener)
| call_unsubscribe (x : Listener).

Definition run_op (s : Store) (o : Op) : Store :=
  match o with
  | call_update actions => store_after (update actions s)
  | call_subscribe x => fst (subscribe x s)
  | call_unsubscribe x => fst (unsubscribe x s)
  end.

Definition run (ops : list Op) (s : Store) : Store := foldl run_op s ops.

(** The ids that [_addTabGroup] returns while a batch runs, in order; the
    groups of a batch that fails later are counted too, they stay stored. *)
Fixpoint assigned_in_batch (actions : list Action) (s : Store) : list string :=
  match actions with
  | [] => []
  | action :: actions' =>
      match try_action action locals0 s with
      | (s', Normal l) => added (diff l) ++ assigned_in_batch actions' s'
      | (_, Throw _) => []
      end
  end.

Fixpoint assigned_ids (ops : list Op) (s : Store) : list string :=
  match ops with
  | [] => []
  | o :: ops' =>
      match o with
      | call_update actions => assigned_in_batch actions s
      | _ => []
      end ++ assigned_ids ops' (run_op s o)
  end.

(** ** Properties of the state *)

Definition panels (g : TabGroup) : list string := linkedPanel <$> tabs g.

(** [tabGroupIds] and the keys of [tabGroups] are in bijection. The
    literal [{ status: "status_destroyed" }] has neither. *)
Definition ids_match_keys (st : State) : Prop :=
  match st with
  | FullState _ f =>
      NoDup (tabGroupIds f)
      ∧ length (tabGroupIds f) = size (tabGroups f)
      ∧ ∀ i, i ∈ tabGroupIds f ↔ is_Some (tabGroups f !! i)
  | DestroyedOnly => True
  end.

(** Two tabs, each distribution strictly between 0 and 1, sum equal to 1
    (all in the arithmetic of JavaScript numbers). *)
Definition well_formed_group (g : TabGroup) : Prop :=
  ∃ t0 t1, tabs g = [t0; t1]
    ∧ lt zero (distribution t0) = true ∧ lt (distribution t0) one = true
    ∧ lt zero (distribution t1) = true ∧ lt (distribution t1) one = true
    ∧ eq (add (distribution t0) (distribution t1)) one = true
    ∧ linkedPanel t0 ≠ linkedPanel t1.

Definition groups_well_formed (st : State) : Prop :=
  match st with
  | FullState _ f =>
      (∀ i g, tabGroups f !! i = Some g → well_formed_group g)
      ∧ (∀ i j g h p, tabGroups f !! i = Some g → tabGroups f !! j = Some h →
           p ∈ panels g → p ∈ panels h → i = j)
  | DestroyedOnly => True
  end.

(** The group lookup of the host answers "split" for every panel of a
    group stored in the state it is given. *)
Definition lookup_reports_members (utils : Utils) : Prop :=
  ∀ p st f i g, tabGroups f !! i = Some g → p ∈ panels g →
    getTabGroupByLinkedPanel utils p (FullState st f) = true.

(** ** What one action does: a step relation *)

(** [_addTabGroup] accepts a group exactly when none of its checks throws. *)
Definition accepted (utils : Utils) (state : State) (g : TabGroup) : Prop :=
  layout g ∈ VALID_LAYOUTS ∧ color g ≠ "" ∧
  ∃ t0 t1, tabs g = [t0; t1]
    ∧ col t0 = 0 ∧ col t1 = 1
    ∧ _isValidTab utils t0 = true ∧ _isValidTab utils t1 = true
    ∧ getTabGroupByLinkedPanel utils (linkedPanel t0) state = false
    ∧ getTabGroupByLinkedPanel utils (linkedPanel t1) state = false
    ∧ linkedPanel t1 ≠ linkedPanel t0
    ∧ eq (add (add zero (distribution t0)) (distribution t1)) one = true.

Definition with_group (g : TabGroup) (st : Status) (f : StateFields) (s : Store)
    : Store :=
  set__state
    (FullState st (store_group (with_id (new_id (_tabGroupIdCount s)) g) f))
    (set__tabGroupIdCount (S (_tabGroupIdCount s)) s).

(** [applies s a s' upd]: in store [s] the action [a] succeeds, leaves the
    store [s'] and changes the local variables of [update] by [upd]. *)
Inductive applies (s : Store) : Action → Store → (Locals → Locals) → Prop :=
| applies_set_active f :
    _state s = FullState status_inactive f →
    applies s set_active (set__state (FullState status_active f) s) set_dirty
| applies_set_inactive f :
    _state s = FullState status_active f →
    applies s set_inactive (set__state (FullState status_inactive f) s) set_dirty
| applies_set_destroyed st f :
    _state s = FullState st f → st ≠ status_destroyed →
    applies s set_destroyed (set__state (FullState status_destroyed f) s) set_dirty
| applies_width_new st f v :
    _state s = FullState st f → st ≠ status_destroyed →
    0 < v → v ≠ windowWidth f →
    applies s (update_window_width v)
      (set__state (FullState st (set_windowWidth v f)) s) set_dirty
| applies_width_same st f v :
    _state s = FullState st f → st ≠ status_destroyed →
    0 < v → v = windowWidth f →
    applies s (update_window_width v) s (λ l, l)
| applies_selected st f v :
    _state s = FullState st f → st ≠ status_destroyed →
    getTabByLinkedPanel (_utils s) v = true →
    applies s (update_selected_linkedPanel v)
      (set__state (FullState st (set_selectedLinkedPanel v f)) s) set_dirty
| applies_add st f g :
    _state s = FullState st f → st ≠ status_destroyed →
    accepted (_utils s) (_state s) g →
    applies s (add_tab_group g) (with_group g st f s)
      (λ l, set_dirty (push_added (new_id (_tabGroupIdCount s)) l))
| applies_remove st f v :
    _state s = FullState st f → st ≠ status_destroyed →
    applies s (remove_tab_group v) s (λ l, set_dirty (push_removed v l))
| applies_distributions st f v ds :
    _state s = FullState st f → st ≠ status_destroyed →
    applies s (update_tab_distibutions v ds) s (λ l, set_dirty (push_updated v l)).

(** Every stored id was made from a counter value already used. *)
Definition ids_below_count (s : Store) : Prop :=
  match _state s with
  | FullState _ f =>
      ∀ i, i ∈ tabGroupIds f → ∃ k, (k < _tabGroupIdCount s)%nat ∧ i = new_id k
  | DestroyedOnly => True
  end.

Definition ids_invariant (s : Store) : Prop :=
  ids_match_keys (_state s) ∧ ids_below_count s.

(** What [groups_well_formed] needs to go through a life of the store:
    the host stays the one given to [init]. *)
Definition groups_invariant (utils : Utils) (s : Store) : Prop :=
  _utils s = utils ∧ groups_well_formed (_state s).

(** The fields of a state besides [status], when it has them. *)
Definition fields (st : State) : option StateFields :=
  match st with
  | FullState _ f => Some f
  | DestroyedOnly => None
  end.

Definition succeeds (a : Action) (s : Store) : Prop :=
  ∃ s' l, try_action a locals0 s = (s', Normal l).

Definition empty_diff : TabGroupsDiff :=
  {| added := []; removed := []; updated := [] |}.

(** ** A host for the examples *)

(** Modelled from the spec: [TabSplit.utils] is not among the sources. The
    spec gives it two lookups, [resolveTabByPanelId] over the live tabs and
    [resolveGroupByPanelId] over the state passed to it. *)
Definition group_of_panel (p : string) (st : State) : bool :=
  match st with
  | FullState _ f => bool_decide (map_Exists (λ _ g, p ∈ panels g) (tabGroups f))
  | DestroyedOnly => false
  end.

Definition host (live : list string) : Utils :=
  {| getTabByLinkedPanel p := bool_decide (p ∈ live);
     getTabGroupByLinkedPanel := group_of_panel |}.

(** 0.5 and 0.4 as JavaScript reads them *)
Definition d_0_5 : number := Eval vm_compute in div (of_Z 1) (of_Z 2).
Definition d_0_4 : number := Eval vm_compute in div (of_Z 2) (of_Z 5).

Definition example_group (a b : number) : TabGroup :=
  {| id := ""; color := "#ff0000"; layout := "column_split";
     tabs := [ {| linkedPanel := "p1"; col := 0; distribution := a |};
               {| linkedPanel := "p2"; col := 1; distribution := b |} ] |}.

Definition example_host : Utils := host ["p1"; "p2"].

(** A store with one listener, active, with a window width. *)
Definition example_store : Store :=
  run [ call_subscribe 7%nat;
        call_update [set_active];
        call_update [update_window_width 800] ] (init example_host).

(** [example_store] after [update({type: "set_destroyed"})]. *)
Definition destroyed_store : Store :=
  store_after (update [set_destroyed] example_store).

(** [example_store] with panel "p1" selected. *)
Definition selected_store : Store :=
  store_after (update [update_selected_linkedPanel "p1"] example_store).

(** [example_store] with the panels "p1" and "p2" split half and half. *)
Definition split_store : Store :=
  store_after (update [add_tab_group (example_group d_0_5 d_0_5)] example_store).

(** [example_store] after [update_window_width 1024] alone. *)
Definition widened_store : Store :=
  (for_actions [update_window_width 1024] locals0 example_store).1.

(** ** Further properties of the state, and bootstrap.js *)

(** [set_active], [set_inactive] and [set_destroyed] *)
Definition sets_status (a : Action) : bool :=
  match a with
  | set_active | set_inactive | set_destroyed => true
  | _ => false
  end.

Definition selection_invariant (utils : Utils) (s : Store) : Prop :=
  _utils s = utils
  ∧ match _state s with
    | FullState _ f =>
        selectedLinkedPanel f = ""
        ∨ getTabByLinkedPanel utils (selectedLinkedPanel f) = true
    | DestroyedOnly => True
    end.

(** What [_addTabGroup] has checked of a group it stored. *)
Definition stored_as_checked (utils : Utils) (i : string) (g : TabGroup) : Prop :=
  id g = i ∧ layout g = "column_split"
  ∧ ∃ t0 t1, tabs g = [t0; t1] ∧ col t0 = 0 ∧ col t1 = 1
      ∧ getTabByLinkedPanel utils (linkedPanel t0) = true
      ∧ getTabByLinkedPanel utils (linkedPanel t1) = true.

Definition groups_as_checked (utils : Utils) (s : Store) : Prop :=
  _utils s = utils
  ∧ match _state s with
    | FullState _ f => ∀ i g, tabGroups f !! i = Some g → stored_as_checked utils i g
    | DestroyedOnly => True
    end.

Definition id_stored (i : string) (st : State) : Prop :=
  ∃ f, fields st = Some f ∧ i ∈ tabGroupIds f ∧ is_Some (tabGroups f !! i).

(** Every way for [add_tab_group] to be refused for the group itself. *)
Definition malformed (utils : Utils) (g : TabGroup) : Prop :=
  layout g ≠ "column_split"
  ∨ color g = ""
  ∨ length (tabs g) ≠ 2%nat
  ∨ (∃ i t, tabs g !! i = Some t ∧
       (col t ≠ Z.of_nat i
        ∨ getTabByLinkedPanel utils (linkedPanel t) = false
        ∨ is_nan (distribution t) = true
        ∨ lt zero (distribution t) = false
        ∨ lt (distribution t) one = false))
  ∨ (∃ t0 t1, tabs g = [t0; t1] ∧ linkedPanel t0 = linkedPanel t1).

(** The ids of [tabGroupIds] carry counters that grow from left to right. *)
Definition ids_in_creation_order (st : State) : Prop :=
  match st with
  | FullState _ f =>
      ∀ a b k k', (a < b)%nat →
        tabGroupIds f !! a = Some (new_id k) →
        tabGroupIds f !! b = Some (new_id k') → (k < k')%nat
  | DestroyedOnly => True
  end.

Definition order_invariant (s : Store) : Prop :=
  ids_below_count s ∧ ids_in_creation_order (_state s).

(** [_listeners] is [null] exactly together with the cleared state. *)
Definition null_when_cleared (s : Store) : Prop :=
  _listeners s = None ↔ _state s = DestroyedOnly.

(** * bootstrap.js: numbering the browser windows

    [TabSplit.onNewBrowserCreated] runs at [startup] and whenever the
    startup observer is notified. It asks the window mediator for the most
    recent browser window, and unless the window's tabbrowser already
    carries the attribute [data-tabsplit-browser-id], it writes the next
    count there and loads the navbar overlay into the window.

    The mediator's answer is the argument of the model ([None] for [null]).
    A window is what the function reads and writes of it; the attribute is
    written by this function only. *)

Module Bootstrap.

Definition OVERLAY : string :=
  "chrome://tabsplit/content/overlay/tabsplit-navbar-overlay.xul".

Record ChromeWindow : Type := mkChromeWindow {
  browser_id : option string;      (* the attribute, [None] when absent *)
  overlays : list string;          (* what [loadOverlay] was called with *)
}.

Definition untouched : ChromeWindow := {| browser_id := None; overlays := [] |}.

(** [TabSplit] of bootstrap.js, with the windows it has written to; every
    other window is [untouched]. *)
Record TabSplit : Type := mkTabSplit {
  _browserCount : nat;
  windows : gmap nat ChromeWindow;
}.

Definition loaded : TabSplit := {| _browserCount := 0; windows := ∅ |}.

Definition window (t : TabSplit) (w : nat) : ChromeWindow :=
  default untouched (windows t !! w).

(** [if (tabbrowser.getAttribute(...))]: a string is truthy unless empty. *)
Definition truthy (attr : option string) : bool :=
  match attr with
  | Some a => negb (bool_decide (a = ""))
  | None => false
  end.

(** The result and the exception thrown, if any. *)
Definition onNewBrowserCreated (chromeWindow : option nat) (t : TabSplit)
    : TabSplit * option Exn :=
  match chromeWindow with
  | None => (t, Some TypeError)            (* [null.document] *)
  | Some w =>
      if truthy (browser_id (window t w)) then (t, None)
      else
        ({| _browserCount := S (_browserCount t);
            windows :=
              <[ w := {| browser_id := Some (pretty (S (_browserCount t)));
                         overlays := overlays (window t w) ++ [OVERLAY] |} ]>
                (windows t) |},
         None)
  end.

(** [startupObserver.observe] *)
Definition observe (chromeWindow : option nat) (t : TabSplit) : TabSplit :=
  (onNewBrowserCreated chromeWindow t).1.

(** [startup], then the observer's notifications, given the mediator's
    answers in order. *)
Definition after_answers (answers : list (option nat)) : TabSplit :=
  foldl (λ t w, observe w t) loaded answers.

(** Every window written to has a count of its own between 1 and
    [_browserCount] as its attribute, and the overlay loaded once. *)
Definition numbered (t : TabSplit) : Prop :=
  size (windows t) = _browserCount t
  ∧ (∀ w win, windows t !! w = Some win →
       ∃ k, (1 ≤ k ≤ _browserCount t)%nat
         ∧ browser_id win = Some (pretty k) ∧ overlays win = [OVERLAY])
  ∧ (∀ w w' win win', windows t !! w = Some win → windows t !! w' = Some win' →
       browser_id win = browser_id win' → w = w').

End Bootstrap.

(** ** JavaScript numbers: the comparisons the store relies on *)

Section Numbers.

Lemma neq_negb_eq x y : neq x y = negb (eq x y).
Proof. reflexivity. Qed.

Lemma add_nan_l y : add S754_nan y = S754_nan.
Proof. reflexivity. Qed.

Lemma add_nan_r x : add x S754_nan = S754_nan.
Proof. destruct x; reflexivity. Qed.

Lemma add_zero_l y : y ≠ S754_zero true → add zero y = y.
Proof. destruct y as [[]|[]| |sy my ey]; intros H; try reflexivity. by destruct H. Qed.

(** Starting the sum from 0 does not change whether it equals 1. *)
Lemma eq_one_sum_from_zero x y :
  eq (add (add zero x) y) one = eq (add x y) one.
Proof.
  destruct x as [[]|sx| |sx mx ex].
  - destruct y as [[]|[]| |sy my ey]; reflexivity.
  - reflexivity.
  - reflexivity.
  - reflexivity.
  - reflexivity.
Qed.

Lemma sum_one_not_nan x y :
  eq (add x y) one = true → is_nan x = false ∧ is_nan y = false.
Proof.
  destruct x as [sx|sx| |sx mx ex].
  3: { rewrite add_nan_l. intros H. discriminate H. }
  all: destruct y as [sy|sy| |sy my ey].
  all: try (intros _; split; reflexivity).
  all: rewrite add_nan_r; intros H; discriminate H.
Qed.

Lemma above_zero x :
  is_nan x = false → le x zero = false → lt zero x = true.
Proof.
  destruct x as [[]|[]| |[] m e]; intros H1 H2;
    first [ reflexivity | discriminate H1 | discriminate H2 ].
Qed.

Lemma below_one x :
  is_nan x = false → ge x one = false → lt x one = true.
Proof.
  destruct x as [[]|[]| |[] m e]; intros H1 H2;
    try first [ reflexivity | discriminate H1 | discriminate H2 ].
  revert H2. clear H1.
  unfold ge, lt, SFleb, SFltb, one; cbn [SFcompare].
  rewrite (Z.compare_antisym e (-52)).
  destruct (e ?= -52)%Z eqn:He; cbn [CompOpp];
    try (intros; reflexivity); try (intros H; discriminate H).
  assert (Pos.compare_cont Eq m 4503599627370496
          = CompOpp (Pos.compare_cont Eq 4503599627370496 m)) as ->
    by (symmetry; apply (Pos.compare_cont_antisym 4503599627370496 m Eq)).
  destruct (Pos.compare_cont Eq 4503599627370496 m); cbn [CompOpp];
    first [ intros; reflexivity | intros H; discriminate H ].
Qed.

End Numbers.

Ltac unfold_M :=
  unfold mbind, M_bind, mret, M_ret, throw, this, assign, completed,
    _removeTabGroup, _updateTabDistributions in *.

Lemma set__state_same (s : Store) : set__state (_state s) s = s.
Proof. by destruct s. Qed.

Section AddTabGroup.

Lemma _addTabGroup_loop_two utils state t0 t1 :
  (col t0 = 0 ∧ col t1 = 1
   ∧ _isValidTab utils t0 = true ∧ _isValidTab utils t1 = true
   ∧ getTabGroupByLinkedPanel utils (linkedPanel t0) state = false
   ∧ getTabGroupByLinkedPanel utils (linkedPanel t1) state = false
   ∧ linkedPanel t1 ≠ linkedPanel t0
   ∧ _addTabGroup_loop utils state [t0; t1] 0 [] zero
     = Normal (add (add zero (distribution t0)) (distribution t1)))
  ∨ ((col t0 = 0 → col t1 = 1 →
      _isValidTab utils t0 = true → _isValidTab utils t1 = true →
      getTabGroupByLinkedPanel utils (linkedPanel t0) state = false →
      getTabGroupByLinkedPanel utils (linkedPanel t1) state = false →
      linkedPanel t1 = linkedPanel t0)
     ∧ ∃ e, _addTabGroup_loop utils state [t0; t1] 0 [] zero = Throw e).
Proof.
  cbn [_addTabGroup_loop app].
  destruct (col t0 =? Z.of_nat 0) eqn:C0; cbn [negb].
  2: { right. split; [|eauto]. intros E. apply Z.eqb_neq in C0. by destruct C0. }
  destruct (_isValidTab utils t0) eqn:V0; cbn [negb].
  2: { right. split; [|eauto]. intros; congruence. }
  destruct (getTabGroupByLinkedPanel utils (linkedPanel t0) state) eqn:G0.
  { right. split; [|eauto]. intros; congruence. }
  rewrite bool_decide_eq_false_2 by apply not_elem_of_nil.
  destruct (col t1 =? Z.of_nat 1) eqn:C1; cbn [negb].
  2: { right. split; [|eauto]. intros _ E. apply Z.eqb_neq in C1. by destruct C1. }
  destruct (_isValidTab utils t1) eqn:V1; cbn [negb].
  2: { right. split; [|eauto]. intros; congruence. }
  destruct (getTabGroupByLinkedPanel utils (linkedPanel t1) state) eqn:G1.
  { right. split; [|eauto]. intros; congruence. }
  apply Z.eqb_eq in C0, C1.
  case_bool_decide as Hseen.
  - right. split; [|eauto]. intros. by apply list_elem_of_singleton in Hseen.
  - left. repeat split; try assumption.
    intros E. apply Hseen. rewrite E. by apply list_elem_of_singleton.
Qed.

Lemma _addTabGroup_full g s st f :
  _state s = FullState st f →
  (accepted (_utils s) (_state s) g
   ∧ _addTabGroup g s = (with_group g st f s, Normal (new_id (_tabGroupIdCount s))))
  ∨ (¬ accepted (_utils s) (_state s) g ∧ ∃ e, _addTabGroup g s = (s, Throw e)).
Proof.
  intros Hs. unfold _addTabGroup, accepted.
  case_bool_decide as Hlayout; cbn [negb].
  2: { right. split; [tauto | unfold_M; eauto]. }
  case_bool_decide as Hcolor.
  { right. split; [tauto | unfold_M; eauto]. }
  destruct (tabs g) as [|t0 [|t1 [|t2 ts]]] eqn:Htabs; cbn [length Nat.eqb negb].
  1,2,4: right; split; [ intros (_ & _ & ? & ? & ? & _); congruence
                       | unfold_M; eauto ].
  unfold_M.
  destruct (_addTabGroup_loop_two (_utils s) (_state s) t0 t1)
    as [(C0 & C1 & V0 & V1 & G0 & G1 & Hne & ->) | (Hno & e & ->)].
  - rewrite neq_negb_eq.
    destruct (eq (add (add zero (distribution t0)) (distribution t1)) one)
      eqn:Hsum; cbn [negb].
    + left. split.
      * do 2 (split; [assumption|]). exists t0, t1. tauto.
      * rewrite Hs. reflexivity.
    + right. split; [|eauto].
      intros (_ & _ & t0' & t1' & [= <- <-] & _ & _ & _ & _ & _ & _ & _ & Hone).
      congruence.
  - right. split; [|eauto].
    intros (_ & _ & t0' & t1' & [= <- <-] & ? & ? & ? & ? & ? & ? & Hne & _).
    apply Hne. by apply Hno.
Qed.

End AddTabGroup.

Section TryAction.

Lemma try_action_destroyed a l s :
  status (_state s) = status_destroyed →
  try_action a l s = (s, Throw StatusIsDestroyed).
Proof.
  intros Hd. unfold try_action. unfold_M.
  destruct (_state s) as [st f|]; cbn in Hd; [subst st|]; reflexivity.
Qed.

Lemma try_action_complete a s s' upd :
  applies s a s' upd → ∀ l, try_action a l s = (s', Normal (upd l)).
Proof.
  intros Ha l. unfold try_action. unfold_M.
  destruct Ha as [f Hs|f Hs|st f Hs Hst|st f v Hs Hst Hv Hw|st f v Hs Hst Hv Hw
                 |st f v Hs Hst Hv|st f g Hs Hst Hg|st f v Hs Hst|st f v ds Hs Hst];
    rewrite ?Hs; try reflexivity;
    try (rewrite (bool_decide_eq_false_2 (st = status_destroyed)) by done).
  - reflexivity.
  - rewrite (proj2 (Z.leb_gt v 0)) by done.
    by rewrite bool_decide_eq_true_2.
  - rewrite (proj2 (Z.leb_gt v 0)) by done.
    by rewrite bool_decide_eq_false_2 by (intros E; by apply E).
  - by rewrite Hv.
  - destruct (_addTabGroup_full g s st f Hs) as [[_ ->]|[Hno _]]; [done|].
    by destruct Hno.
  - reflexivity.
  - reflexivity.
Qed.

Lemma try_action_sound a l s s' l' :
  try_action a l s = (s', Normal l') → ∃ upd, applies s a s' upd ∧ l' = upd l.
Proof.
  unfold try_action. unfold_M.
  destruct (_state s) as [st f|] eqn:Hs; [|discriminate].
  case_bool_decide as Hst; [discriminate|].
  destruct a as [| | |v|v|g|v|v ds|ty].
  - case_bool_decide as Ha; [|discriminate]. intros [= <- <-].
    eexists. split; [|reflexivity]. apply applies_set_active.
    by destruct st.
  - case_bool_decide as Ha; [|discriminate]. intros [= <- <-]. subst st.
    eexists. split; [|reflexivity]. by apply applies_set_inactive.
  - intros [= <- <-]. eexists. split; [|reflexivity].
    by eapply applies_set_destroyed.
  - destruct (v <=? 0) eqn:Hv; [discriminate|]. apply Z.leb_gt in Hv.
    case_bool_decide as Hw; intros [= <- <-].
    + eexists. split; [|reflexivity]. by eapply applies_width_new.
    + exists (λ l, l). split; [|reflexivity].
      eapply applies_width_same; [done..|].
      destruct (decide (v = windowWidth f)) as [?|Hn]; [done|by destruct Hw].
  - destruct (getTabByLinkedPanel (_utils s) v) eqn:Hv; [|discriminate].
    intros [= <- <-]. eexists. split; [|reflexivity].
    by eapply applies_selected.
  - destruct (_addTabGroup_full g s st f Hs) as [[Hg ->]|[_ [e ->]]];
      [|discriminate].
    intros [= <- <-].
    exists (λ l, set_dirty (push_added (new_id (_tabGroupIdCount s)) l)).
    split; [|reflexivity].
    eapply applies_add; [done..|]. by rewrite Hs in Hg |- *.
  - intros [= <- <-]. exists (λ l, set_dirty (push_removed v l)).
    split; [|reflexivity]. by eapply applies_remove.
  - intros [= <- <-]. exists (λ l, set_dirty (push_updated v l)).
    split; [|reflexivity]. by eapply applies_distributions.
  - discriminate.
Qed.

(** A failing action has written nothing, whatever the locals. *)
Lemma try_action_throw a l s s' e :
  try_action a l s = (s', Throw e) →
  s' = s ∧ ∀ l0, try_action a l0 s = (s, Throw e).
Proof.
  unfold try_action. unfold_M.
  destruct (_state s) as [st f|] eqn:Hs; [|by intros [= <- <-]].
  case_bool_decide as Hst; [by intros [= <- <-]|].
  destruct a as [| | |v|v|g|v|v ds|ty].
  - case_bool_decide; [discriminate|]. by intros [= <- <-].
  - case_bool_decide; [discriminate|]. by intros [= <- <-].
  - discriminate.
  - destruct (v <=? 0); [by intros [= <- <-]|].
    case_bool_decide; discriminate.
  - destruct (getTabByLinkedPanel (_utils s) v); [discriminate|].
    by intros [= <- <-].
  - destruct (_addTabGroup_full g s st f Hs) as [[_ ->]|[_ [e' ->]]];
      [discriminate|].
    by intros [= <- <-].
  - discriminate.
  - discriminate.
  - by intros [= <- <-].
Qed.

End TryAction.

Section Batch.

Lemma for_actions_app pre post l s :
  for_actions (pre ++ post) l s =
  match for_actions pre l s with
  | (s1, Normal l1) => for_actions post l1 s1
  | (s1, Throw e) => (s1, Throw e)
  end.
Proof.
  revert l s. induction pre as [|a pre IH]; intros l s; [reflexivity|].
  cbn [app for_actions]. unfold_M.
  destruct (try_action a l s) as [s' [l'|e]]; [apply IH | reflexivity].
Qed.

Lemma for_actions_cons a rest l s :
  for_actions (a :: rest) l s =
  match try_action a l s with
  | (s1, Normal l1) => for_actions rest l1 s1
  | (s1, Throw e) => (s1, Throw e)
  end.
Proof. reflexivity. Qed.

Lemma applies_dirty s a s' upd :
  applies s a s' upd →
  (∀ l, dirty (upd l) = true)
  ∨ (∃ st f, _state s = FullState st f
       ∧ a = update_window_width (windowWidth f) ∧ s' = s ∧ ∀ l, upd l = l).
Proof.
  destruct 1; try (left; reflexivity).
  right. subst v. eauto 10.
Qed.

Lemma applies_dirty_mono s a s' upd l :
  applies s a s' upd → dirty l = true → dirty (upd l) = true.
Proof. by destruct 1. Qed.

(** If the loop ends with [dirty] set, some action of the batch set it. *)
Lemma for_actions_dirty actions l s s1 l1 :
  for_actions actions l s = (s1, Normal l1) → dirty l1 = true →
  dirty l = true
  ∨ ∃ pre a post s0 l0 s0' upd,
      actions = pre ++ a :: post
      ∧ for_actions pre l s = (s0, Normal l0)
      ∧ applies s0 a s0' upd ∧ ∀ l', dirty (upd l') = true.
Proof.
  revert l s. induction actions as [|a rest IH]; intros l s.
  - intros [= <- <-] Hd. by left.
  - rewrite for_actions_cons.
    destruct (try_action a l s) as [s' [l'|e]] eqn:Ha; [|discriminate].
    intros Hrest Hd.
    apply try_action_sound in Ha as (upd & Happ & ->).
    destruct (IH _ _ Hrest Hd)
      as [Hl'|(pre & b & post & s0 & l0 & s0' & upd' & -> & Hpre & Hb & Hupd')].
    + destruct (applies_dirty _ _ _ _ Happ) as [Hall|(st & f & _ & _ & _ & Hid)].
      * right. exists [], a, rest, s, l, s', upd. by repeat split.
      * left. by rewrite Hid in Hl'.
    + right. exists (a :: pre), b, post, s0, l0, s0', upd'.
      repeat split; try done.
      rewrite for_actions_cons.
      by rewrite (try_action_complete _ _ _ _ Happ l).
Qed.

Lemma for_actions_dirty_mono actions l s s1 l1 :
  for_actions actions l s = (s1, Normal l1) → dirty l = true → dirty l1 = true.
Proof.
  revert l s. induction actions as [|a rest IH]; intros l s.
  - by intros [= <- <-].
  - rewrite for_actions_cons.
    destruct (try_action a l s) as [s' [l'|e]] eqn:Ha; [|discriminate].
    intros Hrest Hd. apply (IH _ _ Hrest).
    apply try_action_sound in Ha as (upd & Happ & ->).
    by eapply applies_dirty_mono.
Qed.

Lemma update_failed actions s s1 e :
  for_actions actions locals0 s = (s1, Throw e) →
  update actions s =
    {| store_after := s1; calls := []; console_error := Some e; uncaught := None |}.
Proof. intros H. unfold update. by rewrite H. Qed.

Lemma update_clean actions s s1 l :
  for_actions actions locals0 s = (s1, Normal l) → dirty l = false →
  update actions s =
    {| store_after := s1; calls := []; console_error := None; uncaught := None |}.
Proof. intros H Hd. unfold update. by rewrite H, Hd. Qed.

Lemma update_calls_inv actions s :
  calls (update actions s) ≠ [] →
  ∃ s1 l listeners,
    for_actions actions locals0 s = (s1, Normal l) ∧ dirty l = true
    ∧ _listeners (settle s1) = Some listeners
    ∧ calls (update actions s)
      = (λ x, {| listener := x; tabGroupsDiff := diff l |}) <$> elements listeners
    ∧ console_error (update actions s) = None
    ∧ uncaught (update actions s) = None.
Proof.
  unfold update.
  destruct (for_actions actions locals0 s) as [s1 [l|e]]; [|done].
  destruct (dirty l) eqn:Hd; [|done].
  destruct (_listeners (settle s1)) as [listeners|] eqn:Hl; [|done].
  intros _. by exists s1, l, listeners.
Qed.

End Batch.

(** ** Invariants of a store's life *)

Section Preservation.

Variable P : Store → Prop.
Hypothesis P_applies : ∀ s a s' upd, applies s a s' upd → P s → P s'.
Hypothesis P_reset : ∀ s, P s → P (set__state (FullState status_inactive initial_fields) s).
Hypothesis P_cleared : ∀ s, P s → P (set__state DestroyedOnly s).
Hypothesis P_listeners : ∀ s l, P s → P (set__listeners l s).

Lemma for_actions_preserves actions l s :
  P s → P (for_actions actions l s).1.
Proof.
  revert l s. induction actions as [|a rest IH]; intros l s Hs; [done|].
  rewrite for_actions_cons.
  destruct (try_action a l s) as [s' [l'|e]] eqn:Ha.
  - apply IH. apply try_action_sound in Ha as (upd & Happ & _). eauto.
  - by apply try_action_throw in Ha as [-> _].
Qed.

Lemma settle_preserves s : P s → P (settle s).
Proof. unfold settle. destruct (status (_state s)); cbn; auto. Qed.

Lemma update_preserves actions s : P s → P (store_after (update actions s)).
Proof.
  intros Hs. pose proof (for_actions_preserves actions locals0 s Hs) as H1.
  unfold update. destruct (for_actions actions locals0 s) as [s1 [l|e]]; [|done].
  cbn in H1. destruct (dirty l); [|done].
  apply settle_preserves in H1.
  destruct (_listeners (settle s1)); [|done].
  cbn. case_bool_decide; auto.
Qed.

Lemma run_op_preserves o s : P s → P (run_op s o).
Proof.
  intros Hs. destruct o as [actions|x|x]; cbn.
  - by apply update_preserves.
  - unfold subscribe. unfold_M. destruct (_listeners s); [|done].
    case_bool_decide; cbn; auto.
  - unfold unsubscribe. unfold_M. destruct (_listeners s); [|done].
    case_bool_decide; cbn; auto.
Qed.

Lemma run_preserves ops s : P s → P (run ops s).
Proof.
  revert s. induction ops as [|o ops IH]; intros s Hs; [done|].
  apply IH. by apply run_op_preserves.
Qed.

End Preservation.

Global Instance new_id_inj : Inj (=) (=) new_id.
Proof.
  intros k k' H. unfold new_id in H.
  apply (inj (String.app TAB_GROUP_ID_PREFIX)) in H.
  by apply (inj pretty) in H.
Qed.

Section Ids.

Lemma ids_invariant_applies s a s' upd :
  applies s a s' upd → ids_invariant s → ids_invariant s'.
Proof.
  unfold ids_invariant, ids_below_count.
  destruct 1 as [f Hs|f Hs|st f Hs Hst|st f v Hs Hst Hv Hw|st f v Hs Hst Hv Hw
                |st f v Hs Hst Hv|st f g Hs Hst Hg|st f v Hs Hst|st f v ds Hs Hst];
    rewrite ?Hs; cbn; try done.
  intros [(Hnd & Hlen & Hkeys) Hbelow].
  set (n := _tabGroupIdCount s) in *.
  assert (Hfresh : new_id n ∉ tabGroupIds f).
  { intros Hin. apply Hbelow in Hin as (k & Hk & Heq).
    apply (inj new_id) in Heq. lia. }
  assert (Hnone : tabGroups f !! new_id n = None).
  { apply eq_None_not_Some. intros Hsome. by apply Hkeys in Hsome. }
  split; [split; [|split]|].
  - apply NoDup_app. split; [done|]. split; [|apply NoDup_singleton].
    intros i Hi Hi'. apply list_elem_of_singleton in Hi'. by subst i.
  - rewrite length_app, map_size_insert_None by done. cbn. lia.
  - intros i. rewrite elem_of_app, list_elem_of_singleton, lookup_insert_is_Some.
    rewrite Hkeys. split.
    + intros [Hi| ->]; [|by left].
      destruct (decide (new_id n = i)); [by left|by right].
    + intros [<-|[_ Hi]]; [by right|by left].
  - intros i. rewrite elem_of_app, list_elem_of_singleton.
    intros [Hi| ->].
    + apply Hbelow in Hi as (k & Hk & ->). exists k. split; [lia|done].
    + exists n. split; [lia|done].
Qed.

Lemma ids_invariant_run utils ops : ids_invariant (run ops (init utils)).
Proof.
  apply run_preserves.
  - apply ids_invariant_applies.
  - intros s _. split; cbn; [|by intros i Hi%elem_of_nil].
    split; [apply NoDup_nil_2|]. split; [done|].
    intros i. rewrite lookup_empty. split; [by intros ?%elem_of_nil|by intros [? ?]].
  - by intros s _.
  - by intros s l H.
  - split; cbn; [|by intros i Hi%elem_of_nil].
    split; [apply NoDup_nil_2|]. split; [done|].
    intros i. rewrite lookup_empty. split; [by intros ?%elem_of_nil|by intros [? ?]].
Qed.

End Ids.

Section Groups.

Variable utils : Utils.
Hypothesis utils_reports : lookup_reports_members utils.

Lemma accepted_well_formed state g newId :
  accepted utils state g → well_formed_group (with_id newId g).
Proof.
  intros (_ & _ & t0 & t1 & Htabs & _ & _ & V0 & V1 & _ & _ & Hne & Hsum).
  rewrite eq_one_sum_from_zero in Hsum.
  destruct (sum_one_not_nan _ _ Hsum) as [N0 N1].
  unfold _isValidTab in V0, V1.
  destruct (col t0 <? 0), (col t0 >? 1); try discriminate V0.
  destruct (col t1 <? 0), (col t1 >? 1); try discriminate V1.
  cbn [orb] in V0, V1.
  destruct (le (distribution t0) zero) eqn:L0; [discriminate V0|].
  destruct (ge (distribution t0) one) eqn:G0; [discriminate V0|].
  destruct (le (distribution t1) zero) eqn:L1; [discriminate V1|].
  destruct (ge (distribution t1) one) eqn:G1; [discriminate V1|].
  exists t0, t1. cbn [tabs with_id].
  split; [done|].
  split; [by apply above_zero|]. split; [by apply below_one|].
  split; [by apply above_zero|]. split; [by apply below_one|].
  split; [done|]. by intros E.
Qed.

Lemma accepted_not_member st f g p i h :
  accepted utils (FullState st f) g → p ∈ panels g →
  tabGroups f !! i = Some h → p ∉ panels h.
Proof.
  intros (_ & _ & t0 & t1 & Htabs & _ & _ & _ & _ & G0 & G1 & _) Hp Hi Hin.
  unfold panels in Hp. rewrite Htabs in Hp. cbn in Hp.
  pose proof (utils_reports p st f i h Hi Hin) as Hr.
  apply elem_of_cons in Hp as [->|Hp]; [congruence|].
  apply list_elem_of_singleton in Hp as ->. congruence.
Qed.

Lemma groups_invariant_applies s a s' upd :
  applies s a s' upd → groups_invariant utils s → groups_invariant utils s'.
Proof.
  unfold groups_invariant.
  destruct 1 as [f Hs|f Hs|st f Hs Hst|st f v Hs Hst Hv Hw|st f v Hs Hst Hv Hw
                |st f v Hs Hst Hv|st f g Hs Hst Hg|st f v Hs Hst|st f v ds Hs Hst];
    rewrite ?Hs; cbn; try done.
  intros [Hu [Hwf Hdisj]]. rewrite Hu, Hs in Hg.
  set (newId := new_id (_tabGroupIdCount s)) in *.
  split; [done|]. split.
  - intros i h. rewrite lookup_insert_Some.
    intros [[_ <-]|[_ Hi]]; [|by eapply Hwf].
    by eapply accepted_well_formed.
  - intros i j h h' p. rewrite !lookup_insert_Some.
    intros [[<- <-]|[Hni Hi]] [[<- <-]|[Hnj Hj]] Hp Hp'; try done.
    + by destruct (accepted_not_member _ _ _ p j h' Hg Hp Hj).
    + by destruct (accepted_not_member _ _ _ p i h Hg Hp' Hi).
    + by eapply Hdisj.
Qed.

Lemma groups_invariant_run ops : groups_invariant utils (run ops (init utils)).
Proof.
  apply run_preserves.
  - apply groups_invariant_applies.
  - intros s [Hu _]. split; [done|]. cbn. split.
    + intros i g. by rewrite lookup_empty.
    + intros i j g h p. by rewrite lookup_empty.
  - by intros s [Hu _].
  - by intros s l H.
  - split; [done|]. cbn. split.
    + intros i g. by rewrite lookup_empty.
    + intros i j g h p. by rewrite lookup_empty.
Qed.

End Groups.

Section Counter.

Lemma applies_counter s a s' upd :
  applies s a s' upd →
  (added (diff (upd locals0)) = [] ∧ _tabGroupIdCount s' = _tabGroupIdCount s)
  ∨ (added (diff (upd locals0)) = [new_id (_tabGroupIdCount s)]
     ∧ _tabGroupIdCount s' = S (_tabGroupIdCount s)).
Proof. destruct 1; try (by left). by right. Qed.

Lemma seq_from_counter c n :
  (S c ≤ n)%nat →
  new_id c :: (new_id <$> seq (S c) (n - S c)) = new_id <$> seq c (n - c).
Proof.
  intros H. replace (n - c)%nat with (S (n - S c)) by lia. reflexivity.
Qed.

Lemma assigned_in_batch_counter actions l s :
  (_tabGroupIdCount s ≤ _tabGroupIdCount (for_actions actions l s).1)%nat
  ∧ assigned_in_batch actions s
    = new_id <$> seq (_tabGroupIdCount s)
        (_tabGroupIdCount (for_actions actions l s).1 - _tabGroupIdCount s).
Proof.
  revert l s. induction actions as [|a rest IH]; intros l s.
  - cbn. by rewrite Nat.sub_diag.
  - rewrite for_actions_cons. cbn [assigned_in_batch].
    destruct (try_action a l s) as [s' [l'|e]] eqn:Ha.
    + apply try_action_sound in Ha as (upd & Happ & ->).
      rewrite (try_action_complete _ _ _ _ Happ locals0).
      destruct (IH (upd l) s') as [Hle Heq]. rewrite Heq.
      destruct (applies_counter _ _ _ _ Happ) as [[-> Hc]|[-> Hc]]; rewrite Hc in *.
      * done.
      * split; [lia|]. by apply seq_from_counter.
    + apply try_action_throw in Ha as [-> Hany].
      rewrite (Hany locals0). cbn. by rewrite Nat.sub_diag.
Qed.

Lemma settle_counter s : _tabGroupIdCount (settle s) = _tabGroupIdCount s.
Proof. unfold settle. by destruct (status (_state s)). Qed.

Lemma update_counter actions s :
  _tabGroupIdCount (store_after (update actions s))
  = _tabGroupIdCount (for_actions actions locals0 s).1.
Proof.
  unfold update. destruct (for_actions actions locals0 s) as [s1 [l|e]]; [|done].
  destruct (dirty l); [|done]. cbn [fst].
  destruct (_listeners (settle s1)); cbn [store_after].
  - case_bool_decide; cbn; apply settle_counter.
  - apply settle_counter.
Qed.

Lemma assigned_ids_counter ops s :
  (_tabGroupIdCount s ≤ _tabGroupIdCount (run ops s))%nat
  ∧ assigned_ids ops s
    = new_id <$> seq (_tabGroupIdCount s)
        (_tabGroupIdCount (run ops s) - _tabGroupIdCount s).
Proof.
  revert s. induction ops as [|o ops IH]; intros s.
  - cbn. by rewrite Nat.sub_diag.
  - cbn [assigned_ids run foldl]. fold (run ops (run_op s o)).
    destruct (IH (run_op s o)) as [Hle Heq]. rewrite Heq.
    assert (Hstep : (_tabGroupIdCount s ≤ _tabGroupIdCount (run_op s o))%nat
        ∧ match o with call_update actions => assigned_in_batch actions s | _ => [] end
          = new_id <$> seq (_tabGroupIdCount s)
              (_tabGroupIdCount (run_op s o) - _tabGroupIdCount s)).
    { destruct o as [actions|x|x]; cbn [run_op].
      - rewrite update_counter. apply assigned_in_batch_counter.
      - unfold subscribe. unfold_M. destruct (_listeners s);
          [case_bool_decide|]; cbn; by rewrite Nat.sub_diag.
      - unfold unsubscribe. unfold_M. destruct (_listeners s);
          [case_bool_decide|]; cbn; by rewrite Nat.sub_diag. }
    destruct Hstep as [Hle' ->]. split; [lia|].
    set (c := _tabGroupIdCount s) in *.
    set (c1 := _tabGroupIdCount (run_op s o)) in *.
    set (c2 := _tabGroupIdCount (run ops (run_op s o))) in *.
    replace (c2 - c)%nat with ((c1 - c) + (c2 - c1))%nat by lia.
    rewrite seq_app, fmap_app.
    by replace (c + (c1 - c))%nat with c1 by lia.
Qed.

End Counter.

(** ** The properties of the store *)

Lemma destroyed_store_status : status (_state destroyed_store) = status_destroyed.
Proof. vm_compute. reflexivity. Qed.

(** C1, as stated, fails: a [set_destroyed] submitted to a destroyed store
    does not succeed, it is thrown out by the same guard as every action. *)
Lemma redundant_destroy_is_rejected :
  ¬ (∀ s, status (_state s) = status_destroyed → succeeds set_destroyed s).
Proof.
  intros H. destruct (H destroyed_store destroyed_store_status) as (s' & l & Hs).
  rewrite (try_action_destroyed _ _ _ destroyed_store_status) in Hs.
  discriminate Hs.
Qed.

(** C1, amended: while the status is destroyed every action fails at once,
    [set_destroyed] included; the store is left as it is, the rest of the
    batch is not run and nobody is notified. In any other status
    [set_destroyed] succeeds and sets the status to destroyed. *)
Theorem destroyed_rejects_every_action (s : Store) (l : Locals) :
  (status (_state s) = status_destroyed →
   ∀ a rest,
     try_action a l s = (s, Throw StatusIsDestroyed)
     ∧ update (a :: rest) s =
         {| store_after := s; calls := [];
            console_error := Some StatusIsDestroyed; uncaught := None |})
  ∧ (status (_state s) ≠ status_destroyed →
     ∃ s', try_action set_destroyed l s = (s', Normal (set_dirty l))
           ∧ status (_state s') = status_destroyed).
Proof.
  split.
  - intros Hd a rest. split; [by apply try_action_destroyed|].
    apply update_failed. rewrite for_actions_cons.
    by rewrite try_action_destroyed.
  - intros Hd. destruct (_state s) as [st f|] eqn:Hs; [|by destruct Hd].
    eexists. split.
    + apply (try_action_complete set_destroyed s _ set_dirty).
      by eapply applies_set_destroyed.
    + reflexivity.
Qed.

Lemma destroyed_rejects_every_action_witness :
  update [set_destroyed; set_active] destroyed_store =
    {| store_after := destroyed_store; calls := [];
       console_error := Some StatusIsDestroyed; uncaught := None |}
  ∧ ∃ s', try_action set_destroyed locals0 example_store
            = (s', Normal (set_dirty locals0))
          ∧ status (_state s') = status_destroyed.
Proof.
  split.
  - apply (destroyed_rejects_every_action destroyed_store locals0).
    vm_compute. reflexivity.
  - apply (destroyed_rejects_every_action example_store locals0).
    vm_compute. discriminate.
Defined.

(** C2, on the code: [update({type: "set_destroyed"}, {type: "set_active"})]
    leaves the status destroyed, yet the window width, the group ids, the
    group and the listener are all still there. The second action is thrown
    out by the destroyed guard and the [catch] returns before the clean-up. *)
Example destroy_then_more_keeps_data :
  status (_state (store_after (update [set_destroyed; set_active] split_store)))
    = status_destroyed
  ∧ fields (getState (store_after (update [set_destroyed; set_active] split_store)))
    = Some {| windowWidth := 800; selectedLinkedPanel := "";
              tabGroupIds := ["tabsplit-tab-group-id-0"];
              tabGroups :=
                {[ "tabsplit-tab-group-id-0" :=
                     with_id "tabsplit-tab-group-id-0" (example_group d_0_5 d_0_5) ]} |}
  ∧ _listeners (store_after (update [set_destroyed; set_active] split_store))
    = Some {[ 7%nat ]}
  ∧ calls (update [set_destroyed; set_active] split_store) = []
  ∧ console_error (update [set_destroyed; set_active] split_store)
    = Some StatusIsDestroyed.
Proof. vm_compute. repeat split; reflexivity. Qed.

(** A batch that runs to its end with the status destroyed does clear the
    state and drop the listeners. *)
Lemma completed_destroy_clears actions s s1 l listeners :
  for_actions actions locals0 s = (s1, Normal l) → dirty l = true →
  status (_state s1) = status_destroyed → _listeners s1 = Some listeners →
  store_after (update actions s) = set__listeners None (set__state DestroyedOnly s1).
Proof.
  intros Hrun Hd Hst Hl. unfold update. rewrite Hrun, Hd.
  unfold settle. rewrite Hst. cbn. by rewrite Hl.
Qed.

Lemma listener_of_calls (d : TabGroupsDiff) (xs : list Listener) :
  listener <$> ((λ x, {| listener := x; tabGroupsDiff := d |}) <$> xs) = xs.
Proof. induction xs as [|x xs IH]; [done|]. cbn. by rewrite IH. Qed.

Lemma try_same_width s st f l :
  _state s = FullState st f →
  try_action (update_window_width (windowWidth f)) l s = (s, Normal l)
  ∨ ∃ e, try_action (update_window_width (windowWidth f)) l s = (s, Throw e).
Proof.
  intros Hs. unfold try_action. unfold_M. rewrite Hs.
  case_bool_decide; [right; eauto|].
  destruct (windowWidth f <=? 0); [right; eauto|].
  rewrite bool_decide_eq_false_2 by (intros E; by apply E). by left.
Qed.

Lemma same_width_is_silent s st f actions l :
  _state s = FullState st f →
  Forall (λ a, a = update_window_width (windowWidth f)) actions →
  for_actions actions l s = (s, Normal l)
  ∨ ∃ e, for_actions actions l s = (s, Throw e).
Proof.
  intros Hs. induction 1 as [|a rest -> _ IH]; [by left|].
  rewrite for_actions_cons.
  destruct (try_same_width s st f l Hs) as [->|[e ->]]; [apply IH|].
  right. eauto.
Qed.

(** C3, as stated, fails: selecting again the panel that is selected changes
    nothing in the store, and the listener is called all the same. *)
Lemma reselecting_the_selected_panel_notifies :
  selectedLinkedPanel <$> fields (getState selected_store) = Some "p1"
  ∧ getState (store_after (update [update_selected_linkedPanel "p1"] selected_store))
    = getState selected_store
  ∧ calls (update [update_selected_linkedPanel "p1"] selected_store)
    = [ {| listener := 7%nat; tabGroupsDiff := empty_diff |} ].
Proof. vm_compute. repeat split; reflexivity. Qed.

(** C3, amended: in one call of [update] each listener is called at most
    once, and only when no action of the batch failed and some action set
    [dirty]; every action that succeeds sets it, except
    [update_window_width] with the width the state already has. So a batch
    of [update_window_width] actions with the current width notifies nobody
    and leaves the store as it is, whereas selecting the selected panel
    again does notify. *)
Theorem notified_once_when_dirty (actions : list Action) (s : Store) :
  NoDup (listener <$> calls (update actions s))
  ∧ (calls (update actions s) ≠ [] →
     console_error (update actions s) = None
     ∧ ∃ pre a post s0 l0 s0' l0',
         actions = pre ++ a :: post
         ∧ for_actions pre locals0 s = (s0, Normal l0)
         ∧ try_action a l0 s0 = (s0', Normal l0')
         ∧ ∀ st f, _state s0 = FullState st f →
                   a ≠ update_window_width (windowWidth f))
  ∧ (∀ a l s' l', try_action a l s = (s', Normal l') →
     (∀ st f, _state s = FullState st f →
              a ≠ update_window_width (windowWidth f)) →
     dirty l' = true)
  ∧ (∀ st f, _state s = FullState st f →
     Forall (λ a, a = update_window_width (windowWidth f)) actions →
     calls (update actions s) = [] ∧ store_after (update actions s) = s).
Proof.
  split; [|split; [|split]].
  - destruct (decide (calls (update actions s) = [])) as [->|Hne];
      [apply NoDup_nil_2|].
    destruct (update_calls_inv _ _ Hne) as (s1 & l & ls & _ & _ & _ & -> & _).
    rewrite listener_of_calls. apply NoDup_elements.
  - intros Hne.
    destruct (update_calls_inv _ _ Hne) as (s1 & l & ls & Hrun & Hd & _ & _ & Hce & _).
    split; [done|].
    destruct (for_actions_dirty _ _ _ _ _ Hrun Hd)
      as [Hd0|(pre & a & post & s0 & l0 & s0' & upd & -> & Hpre & Happ & Hupd)];
      [discriminate Hd0|].
    exists pre, a, post, s0, l0, s0', (upd l0).
    split; [done|]. split; [done|].
    split; [by apply try_action_complete|].
    intros st f Hs0 ->.
    pose proof (try_action_complete _ _ _ _ Happ locals0) as Hc.
    destruct (try_same_width s0 st f locals0 Hs0) as [Hw|[e Hw]];
      rewrite Hw in Hc; [|discriminate Hc].
    injection Hc as _ Hl. specialize (Hupd locals0).
    rewrite <- Hl in Hupd. discriminate Hupd.
  - intros a l s' l' Ha Hdiff.
    apply try_action_sound in Ha as (upd & Happ & ->).
    destruct (applies_dirty _ _ _ _ Happ) as [Hall|(st & f & Hs & -> & _)];
      [apply Hall|].
    by destruct (Hdiff st f Hs).
  - intros st f Hs Hall.
    destruct (same_width_is_silent s st f actions locals0 Hs Hall) as [Hrun|[e Hrun]].
    + by rewrite (update_clean _ _ _ _ Hrun).
    + by rewrite (update_failed _ _ _ _ Hrun).
Qed.

Lemma notified_once_when_dirty_witness :
  console_error (update [set_inactive] example_store) = None
  ∧ calls (update [update_window_width 800; update_window_width 800] example_store) = []
  ∧ store_after (update [update_window_width 800; update_window_width 800] example_store)
    = example_store.
Proof.
  split.
  - apply (proj1 (proj2 (notified_once_when_dirty [set_inactive] example_store))).
    vm_compute. discriminate.
  - apply (proj2 (proj2 (proj2 (notified_once_when_dirty
             [update_window_width 800; update_window_width 800] example_store)))
             status_active
             {| windowWidth := 800; selectedLinkedPanel := "";
                tabGroupIds := []; tabGroups := ∅ |}).
    + vm_compute. reflexivity.
    + repeat constructor.
Defined.

(** C4: when an action of a batch fails, the actions after it are not run,
    no listener is called, and the store is the one the actions before it
    left: what they wrote stays, and the failing action wrote nothing. *)
Theorem failed_batch_keeps_prefix
    (pre : list Action) (a : Action) (post : list Action)
    (s s1 s2 : Store) (l1 : Locals) (e : Exn) :
  for_actions pre locals0 s = (s1, Normal l1) →
  try_action a l1 s1 = (s2, Throw e) →
  s2 = s1
  ∧ update (pre ++ a :: post) s =
      {| store_after := s1; calls := []; console_error := Some e; uncaught := None |}.
Proof.
  intros Hpre Ha. apply try_action_throw in Ha as [-> Ha]. split; [done|].
  apply update_failed. rewrite for_actions_app, Hpre, for_actions_cons.
  by rewrite Ha.
Qed.

Lemma failed_batch_keeps_prefix_witness :
  widened_store = widened_store
  ∧ update [update_window_width 1024; set_active; set_destroyed] example_store =
      {| store_after := widened_store; calls := [];
         console_error := Some SetActiveOnActive; uncaught := None |}.
Proof.
  apply (failed_batch_keeps_prefix [update_window_width 1024] set_active
           [set_destroyed] example_store widened_store widened_store
           (set_dirty locals0) SetActiveOnActive).
  - reflexivity.
  - reflexivity.
Defined.

Lemma add_tab_group_throws_or_accepts g l s :
  (∃ e, try_action (add_tab_group g) l s = (s, Throw e))
  ∨ (∃ st f, _state s = FullState st f ∧ accepted (_utils s) (_state s) g).
Proof.
  destruct (try_action (add_tab_group g) l s) as [s' [l'|e]] eqn:Ha.
  - right. apply try_action_sound in Ha as (upd & Happ & _).
    inversion Happ; subst. eauto.
  - left. apply try_action_throw in Ha as [-> _]. eauto.
Qed.

(** C5: [add_tab_group] fails whenever the two distributions do not add up
    to 1 under [==], and a failed [add_tab_group] leaves the whole store as
    it was (groups, group ids and counter included); alone in its batch it
    notifies nobody. *)
Theorem add_tab_group_rejects_without_trace
    (s : Store) (g : TabGroup) (l : Locals) :
  (∀ t0 t1, tabs g = [t0; t1] →
     eq (add (distribution t0) (distribution t1)) one = false →
     ∃ e, try_action (add_tab_group g) l s = (s, Throw e))
  ∧ (∀ s' e, try_action (add_tab_group g) l s = (s', Throw e) →
       s' = s
       ∧ update [add_tab_group g] s =
           {| store_after := s; calls := []; console_error := Some e;
              uncaught := None |}).
Proof.
  split.
  - intros t0 t1 Htabs Hsum.
    destruct (add_tab_group_throws_or_accepts g l s)
      as [?|(st & f & _ & _ & _ & t0' & t1' & Htabs' & Hacc)]; [done|].
    rewrite Htabs in Htabs'. injection Htabs' as <- <-.
    destruct Hacc as (_ & _ & _ & _ & _ & _ & _ & Hone).
    rewrite eq_one_sum_from_zero in Hone. congruence.
  - intros s' e Ha. apply try_action_throw in Ha as [-> Ha]. split; [done|].
    apply update_failed. rewrite for_actions_cons. by rewrite Ha.
Qed.

Lemma add_tab_group_rejects_without_trace_witness :
  ∃ e, update [add_tab_group (example_group d_0_5 d_0_4)] example_store =
         {| store_after := example_store; calls := []; console_error := Some e;
            uncaught := None |}.
Proof.
  destruct (add_tab_group_rejects_without_trace example_store
              (example_group d_0_5 d_0_4) locals0) as [Hsum Hkeep].
  destruct (Hsum _ _ eq_refl) as [e He]; [vm_compute; reflexivity|].
  exists e. by apply (Hkeep example_store e).
Defined.

(** The scenario of the spec: 0.5 and 0.4 are refused for their sum. *)
Example add_half_and_two_fifths :
  console_error (update [add_tab_group (example_group d_0_5 d_0_4)] example_store)
  = Some (DistributionSumNotOne (add d_0_5 d_0_4) ["p1"; "p2"])
  ∧ getState (store_after
      (update [add_tab_group (example_group d_0_5 d_0_4)] example_store))
    = getState example_store.
Proof. vm_compute. split; reflexivity. Qed.

(** C6, as stated, fails: in [update(set_inactive, set_active)] the
    [set_inactive] succeeds, and nothing is reset: the batch ends active,
    with the window width and the groups it had. *)
Lemma set_inactive_then_active_keeps_fields :
  (try_action set_inactive locals0 split_store).2 = Normal (set_dirty locals0)
  ∧ console_error (update [set_inactive; set_active] split_store) = None
  ∧ getState (store_after (update [set_inactive; set_active] split_store))
    = getState split_store
  ∧ windowWidth <$> fields (getState split_store) = Some 800
  ∧ tabGroupIds <$> fields (getState split_store) = Some ["tabsplit-tab-group-id-0"].
Proof. vm_compute. repeat split; reflexivity. Qed.

(** C6, amended: [set_inactive] fails when the status is not active; when
    it is, [set_inactive] succeeds and sets the status to inactive, and if
    the batch then runs to its end with the status still inactive, [update]
    resets the other fields to their defaults before it notifies; so it
    does when [set_inactive] is the only action. *)
Theorem set_inactive_resets_at_batch_end (s : Store) (l : Locals) :
  (status (_state s) ≠ status_active →
     ∃ e, try_action set_inactive l s = (s, Throw e))
  ∧ (status (_state s) = status_active →
     ∃ f, _state s = FullState status_active f
       ∧ try_action set_inactive l s
         = (set__state (FullState status_inactive f) s, Normal (set_dirty l)))
  ∧ (∀ pre post s1 l1,
       for_actions (pre ++ set_inactive :: post) locals0 s = (s1, Normal l1) →
       status (_state s1) = status_inactive →
       _state (store_after (update (pre ++ set_inactive :: post) s))
       = FullState status_inactive initial_fields)
  ∧ (status (_state s) = status_active →
     _state (store_after (update [set_inactive] s))
     = FullState status_inactive initial_fields).
Proof.
  assert (Hact : status (_state s) = status_active →
     ∃ f, _state s = FullState status_active f
       ∧ ∀ l', try_action set_inactive l' s
         = (set__state (FullState status_inactive f) s, Normal (set_dirty l'))).
  { intros Hst. destruct (_state s) as [st f|] eqn:Hs; [|discriminate Hst].
    cbn in Hst. subst st. exists f. split; [done|]. intros l'.
    apply (try_action_complete set_inactive s _ set_dirty).
    by apply applies_set_inactive. }
  assert (Hend : ∀ pre post s1 l1,
       for_actions (pre ++ set_inactive :: post) locals0 s = (s1, Normal l1) →
       status (_state s1) = status_inactive →
       _state (store_after (update (pre ++ set_inactive :: post) s))
       = FullState status_inactive initial_fields).
  { intros pre post s1 l1 Hrun Hst.
    assert (Hd : dirty l1 = true).
    { rewrite for_actions_app in Hrun.
      destruct (for_actions pre locals0 s) as [s0 [l0|e]]; [|discriminate Hrun].
      rewrite for_actions_cons in Hrun.
      destruct (try_action set_inactive l0 s0) as [s0' [l0'|e]] eqn:Ha;
        [|discriminate Hrun].
      apply (for_actions_dirty_mono _ _ _ _ _ Hrun).
      apply try_action_sound in Ha as (upd & Happ & ->).
      by inversion Happ. }
    unfold update. rewrite Hrun, Hd. unfold settle. rewrite Hst. cbn.
    by destruct (_listeners s1). }
  split; [|split; [|split]].
  - intros Hst.
    destruct (try_action set_inactive l s) as [s' [l'|e]] eqn:Ha.
    + apply try_action_sound in Ha as (upd & Happ & _).
      inversion Happ as [|f Hs| | | | | | |]; subst. rewrite Hs in Hst.
      by destruct Hst.
    + apply try_action_throw in Ha as [-> _]. eauto.
  - intros Hst. destruct (Hact Hst) as (f & Hs & Ha). eauto.
  - exact Hend.
  - intros Hst. destruct (Hact Hst) as (f & Hs & Ha).
    apply (Hend [] [] (set__state (FullState status_inactive f) s)
             (set_dirty locals0)); [|done].
    cbn [app]. rewrite for_actions_cons. by rewrite Ha.
Qed.

Lemma set_inactive_resets_at_batch_end_witness :
  getState (store_after (update [set_inactive] split_store))
  = FullState status_inactive initial_fields
  ∧ ∃ e, try_action set_inactive locals0 destroyed_store = (destroyed_store, Throw e).
Proof.
  split.
  - apply (set_inactive_resets_at_batch_end split_store locals0).
    vm_compute. reflexivity.
  - apply (set_inactive_resets_at_batch_end destroyed_store locals0).
    vm_compute. discriminate.
Defined.

(** C7: in every state a store reaches from [init], [tabGroupIds] has no
    duplicates, is as long as [tabGroups] has keys, and holds exactly the
    keys of [tabGroups]. *)
Theorem ids_in_bijection_with_keys (utils : Utils) (ops : list Op) :
  ids_match_keys (getState (run ops (init utils))).
Proof. apply ids_invariant_run. Qed.

Lemma host_reports_members live : lookup_reports_members (host live).
Proof.
  intros p st f i g Hi Hp. cbn. apply bool_decide_eq_true_2.
  by exists i, g.
Qed.

(** C8: if the host's group lookup answers "split" for every panel of a
    stored group, then in every state a store reaches from [init] each
    stored group has exactly two tabs, on two different panels, with
    distributions strictly between 0 and 1 whose sum [==] 1, and no panel
    is in two stored groups. *)
Theorem stored_groups_well_formed (utils : Utils) (ops : list Op) :
  lookup_reports_members utils →
  groups_well_formed (getState (run ops (init utils))).
Proof. intros Hu. by apply groups_invariant_run. Qed.

Lemma stored_groups_well_formed_witness :
  groups_well_formed (getState split_store).
Proof.
  apply (stored_groups_well_formed example_host
           [ call_subscribe 7%nat;
             call_update [set_active];
             call_update [update_window_width 800];
             call_update [add_tab_group (example_group d_0_5 d_0_5)] ]).
  apply host_reports_members.
Defined.

Example split_store_has_a_group :
  tabGroupIds <$> fields (getState split_store) = Some ["tabsplit-tab-group-id-0"].
Proof. vm_compute. reflexivity. Qed.

(** C9: over a store's life the ids returned by [_addTabGroup] are the
    prefix followed by 0, 1, 2, ... in this order, one per successful add,
    up to the counter of the store; so no id is given twice, whatever was
    reset or removed in between. *)
Theorem ids_never_reused (utils : Utils) (ops : list Op) :
  assigned_ids ops (init utils)
  = (λ k, TAB_GROUP_ID_PREFIX +:+ pretty k)
      <$> seq 0 (_tabGroupIdCount (run ops (init utils)))
  ∧ NoDup (assigned_ids ops (init utils)).
Proof.
  destruct (assigned_ids_counter ops (init utils)) as [_ Heq].
  cbn [init _tabGroupIdCount] in Heq. rewrite Nat.sub_0_r in Heq.
  split; [exact Heq|].
  rewrite Heq. apply (NoDup_fmap_2 new_id), NoDup_seq.
Qed.

(** Two adds with a reset by [set_inactive] in between get the ids 0 and 1. *)
Example ids_across_a_reset :
  assigned_ids
    [ call_update [set_active; add_tab_group (example_group d_0_5 d_0_5)];
      call_update [set_inactive];
      call_update [set_active; add_tab_group (example_group d_0_5 d_0_5)] ]
    (init example_host)
  = ["tabsplit-tab-group-id-0"; "tabsplit-tab-group-id-1"].
Proof. vm_compute. reflexivity. Qed.







(** ** The scenarios of the specification, run on the model *)

(** [set_active] twice in a row: the second call fails, the status stays
    active and nobody is notified again. *)
Example set_active_twice :
  console_error (update [set_active] example_store) = Some SetActiveOnActive
  ∧ calls (update [set_active] example_store) = []
  ∧ getState (store_after (update [set_active] example_store))
    = getState example_store.
Proof. vm_compute. repeat split; reflexivity. Qed.

(** After [set_destroyed] the state is the literal with the status alone,
    the listeners are gone, and [update_window_width 800] fails. *)
Example width_after_destroy :
  getState destroyed_store = DestroyedOnly
  ∧ _listeners destroyed_store = None
  ∧ console_error (update [update_window_width 800] destroyed_store)
    = Some StatusIsDestroyed
  ∧ calls (update [update_window_width 800] destroyed_store) = []
  ∧ getState (store_after (update [update_window_width 800] destroyed_store))
    = DestroyedOnly.
Proof. vm_compute. repeat split; reflexivity. Qed.

(** Adding the group of "p1" and "p2", half and half: the listener is told
    the one new id. *)
Example add_half_and_half :
  calls (update [add_tab_group (example_group d_0_5 d_0_5)] example_store)
  = [ {| listener := 7%nat;
         tabGroupsDiff := {| added := ["tabsplit-tab-group-id-0"];
                             removed := []; updated := [] |} |} ].
Proof. vm_compute. reflexivity. Qed.

(** Selecting a panel the host does not know fails and changes nothing. *)
Example select_unknown_panel :
  console_error (update [update_selected_linkedPanel "unknown"] selected_store)
  = Some (UnknownSelectedLinkedPanel "unknown")
  ∧ getState (store_after
      (update [update_selected_linkedPanel "unknown"] selected_store))
    = getState selected_store.
Proof. vm_compute. split; reflexivity. Qed.

(** 0.1 + 0.9 is 1 in this arithmetic, 0.5 + 0.4 is not. *)
Example sums_in_binary64 :
  eq (add (div (of_Z 1) (of_Z 10)) (div (of_Z 9) (of_Z 10))) one = true
  ∧ eq (add d_0_5 d_0_4) one = false.
Proof. vm_compute. split; reflexivity. Qed.

(** ** More of the store: what the actions leave alone *)

Lemma applies_frame s a s' upd :
  applies s a s' upd → _listeners s' = _listeners s ∧ _utils s' = _utils s.
Proof. by destruct 1. Qed.

Lemma for_actions_frame actions l s :
  _listeners (for_actions actions l s).1 = _listeners s
  ∧ _utils (for_actions actions l s).1 = _utils s.
Proof.
  revert l s. induction actions as [|a rest IH]; intros l s; [done|].
  rewrite for_actions_cons.
  destruct (try_action a l s) as [s' [l'|e]] eqn:Ha.
  - apply try_action_sound in Ha as (upd & Happ & _).
    destruct (applies_frame _ _ _ _ Happ) as [<- <-]. apply IH.
  - by apply try_action_throw in Ha as [-> _].
Qed.

Lemma settle_frame s :
  _listeners (settle s) = _listeners s ∧ _utils (settle s) = _utils s.
Proof. unfold settle. by destruct (status (_state s)). Qed.

(** A batch either throws whatever the locals, or runs to its end and
    changes the locals by one function, which sets [dirty] always or leaves
    locals and store as they were. *)
Lemma for_actions_uniform actions s :
  (∃ s' e, ∀ l, for_actions actions l s = (s', Throw e))
  ∨ (∃ s' U, (∀ l, for_actions actions l s = (s', Normal (U l)))
       ∧ (∀ l, dirty l = true → dirty (U l) = true)
       ∧ ((∀ l, dirty (U l) = true) ∨ ((∀ l, U l = l) ∧ s' = s))).
Proof.
  revert s. induction actions as [|a rest IH]; intros s.
  - right. exists s, (λ l, l). split; [done|]. split; [done|]. by right.
  - destruct (try_action a locals0 s) as [s1 [l1|e]] eqn:Ha.
    + apply try_action_sound in Ha as (upd & Happ & _).
      pose proof (try_action_complete _ _ _ _ Happ) as Hupd.
      destruct (IH s1) as [(s' & e & Hthrow)|(s' & U & Hrun & Hmono & Hkind)].
      * left. exists s', e. intros l. by rewrite for_actions_cons, Hupd.
      * right. exists s', (λ l, U (upd l)). split; [|split].
        -- intros l. by rewrite for_actions_cons, Hupd.
        -- intros l Hl. apply Hmono. by eapply applies_dirty_mono.
        -- destruct Hkind as [Hall|[Hid ->]]; [by left|].
           destruct (applies_dirty _ _ _ _ Happ) as [Hd|(st & f & _ & _ & -> & Hupdid)].
           ++ left. intros l. by rewrite Hid.
           ++ right. split; [|done]. intros l. by rewrite Hid, Hupdid.
    + apply try_action_throw in Ha as [-> Hany].
      left. exists s, e. intros l. by rewrite for_actions_cons, Hany.
Qed.

(** ** Listeners *)

(** The store a call of [update] leaves when the batch ran to its end. *)
Lemma update_completed actions s s1 l :
  for_actions actions locals0 s = (s1, Normal l) → dirty l = true →
  ∀ listeners, _listeners s = Some listeners →
  update actions s =
    {| store_after :=
         if bool_decide (status (_state (settle s1)) = status_destroyed)
         then set__listeners None (settle s1) else settle s1;
       calls := (λ x, {| listener := x; tabGroupsDiff := diff l |})
                  <$> elements listeners;
       console_error := None; uncaught := None |}.
Proof.
  intros Hrun Hd listeners Hl. unfold update. rewrite Hrun, Hd.
  assert (Hl' : _listeners (settle s1) = Some listeners).
  { rewrite (proj1 (settle_frame s1)).
    pose proof (proj1 (for_actions_frame actions locals0 s)) as Hf.
    rewrite Hrun in Hf. cbn in Hf. by rewrite Hf. }
  by rewrite Hl'.
Qed.

(** X1: when a batch runs to its end with [dirty] set, every listener
    registered when [update] was called is called exactly once, all with the
    same three lists, and nobody else is called. *)
Theorem every_listener_called_once
    (actions : list Action) (s s1 : Store) (l : Locals) (listeners : gset Listener) :
  for_actions actions locals0 s = (s1, Normal l) → dirty l = true →
  _listeners s = Some listeners →
  NoDup (listener <$> calls (update actions s))
  ∧ (∀ x, x ∈ listener <$> calls (update actions s) ↔ x ∈ listeners)
  ∧ (∀ c, c ∈ calls (update actions s) → tabGroupsDiff c = diff l).
Proof.
  intros Hrun Hd Hl. rewrite (update_completed _ _ _ _ Hrun Hd _ Hl). cbn.
  rewrite listener_of_calls. split; [apply NoDup_elements|]. split.
  - intros x. apply elem_of_elements.
  - intros c Hc. apply list_elem_of_fmap in Hc as (x & -> & _). done.
Qed.

Lemma every_listener_called_once_witness :
  7%nat ∈ listener <$> calls (update [update_window_width 1024] example_store).
Proof.
  apply (proj1 (proj2 (every_listener_called_once [update_window_width 1024]
           example_store widened_store (set_dirty locals0) {[ 7%nat ]}
           eq_refl eq_refl eq_refl))).
  by apply elem_of_singleton.
Defined.

Lemma calls_from_listeners actions s x :
  x ∈ listener <$> calls (update actions s) →
  ∃ listeners, _listeners s = Some listeners ∧ x ∈ listeners.
Proof.
  intros Hx.
  assert (Hne : calls (update actions s) ≠ []).
  { intros E. rewrite E in Hx. by apply elem_of_nil in Hx. }
  destruct (update_calls_inv _ _ Hne) as (s1 & l & ls & Hrun & _ & Hls & Hcalls & _).
  rewrite Hcalls, listener_of_calls in Hx. apply elem_of_elements in Hx.
  exists ls. split; [|done].
  rewrite (proj1 (settle_frame s1)) in Hls.
  pose proof (proj1 (for_actions_frame actions locals0 s)) as Hf.
  rewrite Hrun in Hf. cbn in Hf. by rewrite <- Hf.
Qed.

(** X2: [subscribe] and [unsubscribe] on a live listener set: both return
    normally and touch nothing but [_listeners]; subscribing twice is
    subscribing once; unsubscribing a listener that was not there before
    its [subscribe] gives the store back; after [subscribe] the listener is
    called by every [update] that calls anyone, after [unsubscribe] by none. *)
Theorem subscribe_unsubscribe_laws
    (s : Store) (x : Listener) (listeners : gset Listener) :
  _listeners s = Some listeners →
  subscribe x s = (set__listeners (Some (listeners ∪ {[x]})) s, Normal tt)
  ∧ unsubscribe x s = (set__listeners (Some (listeners ∖ {[x]})) s, Normal tt)
  ∧ (subscribe x (subscribe x s).1).1 = (subscribe x s).1
  ∧ (x ∉ listeners → (unsubscribe x (subscribe x s).1).1 = s)
  ∧ (∀ actions, calls (update actions (subscribe x s).1) ≠ [] →
       x ∈ listener <$> calls (update actions (subscribe x s).1))
  ∧ (∀ actions, x ∉ listener <$> calls (update actions (unsubscribe x s).1)).
Proof.
  intros Hl.
  assert (Hsame : ∀ ls, ls = listeners → set__listeners (Some ls) s = s).
  { intros ls ->. destruct s; cbn in *. by subst. }
  assert (Hsub : subscribe x s = (set__listeners (Some (listeners ∪ {[x]})) s, Normal tt)).
  { unfold subscribe. unfold_M. rewrite Hl. case_bool_decide as Hx; cbn [negb].
    - rewrite Hsame; [done|]. apply set_eq. set_solver.
    - done. }
  assert (Hunsub : unsubscribe x s = (set__listeners (Some (listeners ∖ {[x]})) s, Normal tt)).
  { unfold unsubscribe. unfold_M. rewrite Hl. case_bool_decide as Hx.
    - done.
    - rewrite Hsame; [done|]. apply set_eq. set_solver. }
  split; [done|]. split; [done|]. rewrite Hsub, Hunsub. cbn [fst].
  split; [|split; [|split]].
  - unfold subscribe. unfold_M. cbn.
    rewrite bool_decide_eq_true_2 by set_solver. done.
  - intros Hx. unfold unsubscribe. unfold_M. cbn.
    rewrite bool_decide_eq_true_2 by set_solver. cbn.
    assert ((listeners ∪ {[x]}) ∖ {[x]} = listeners) as ->
      by (apply set_eq; set_solver).
    destruct s; cbn in *. by subst.
  - intros actions Hne.
    destruct (update_calls_inv _ _ Hne) as (s1 & l & ls & Hrun & _ & Hls & -> & _).
    rewrite listener_of_calls. apply elem_of_elements.
    rewrite (proj1 (settle_frame s1)) in Hls.
    pose proof (proj1 (for_actions_frame actions locals0
                  (set__listeners (Some (listeners ∪ {[x]})) s))) as Hf.
    rewrite Hrun in Hf. cbn in Hf. rewrite Hf in Hls. injection Hls as <-.
    set_solver.
  - intros actions Hx. apply calls_from_listeners in Hx as (ls & Hls & Hin).
    cbn in Hls. injection Hls as <-. set_solver.
Qed.

Lemma subscribe_unsubscribe_laws_witness :
  (unsubscribe 8%nat (subscribe 8%nat example_store).1).1 = example_store.
Proof.
  apply (subscribe_unsubscribe_laws example_store 8%nat {[ 7%nat ]}).
  - vm_compute. reflexivity.
  - intros H. apply elem_of_singleton in H. discriminate H.
Defined.

(** ** The status *)

Lemma update_on_destroyed actions s :
  status (_state s) = status_destroyed →
  store_after (update actions s) = s ∧ calls (update actions s) = [].
Proof.
  intros Hd. destruct actions as [|a rest].
  - by rewrite (update_clean [] s s locals0).
  - pose proof (try_action_destroyed a locals0 s Hd) as Ha.
    by rewrite (update_failed (a :: rest) s s StatusIsDestroyed)
      by (by rewrite for_actions_cons, Ha).
Qed.

Lemma run_op_on_destroyed o s :
  status (_state s) = status_destroyed →
  _state (run_op s o) = _state s
  ∧ _tabGroupIdCount (run_op s o) = _tabGroupIdCount s.
Proof.
  intros Hd. destruct o as [actions|x|x]; cbn [run_op].
  - by rewrite (proj1 (update_on_destroyed actions s Hd)).
  - unfold subscribe. unfold_M. destruct (_listeners s); [|done].
    by case_bool_decide.
  - unfold unsubscribe. unfold_M. destruct (_listeners s); [|done].
    by case_bool_decide.
Qed.

(** X3: destroyed is final. Once the status is destroyed, whatever is called
    afterwards (before a new [init]) leaves the state and the id counter as
    they are, assigns no id, and no call of [update] calls a listener. *)
Theorem destroyed_is_final (s : Store) (ops : list Op) (actions : list Action) :
  status (_state s) = status_destroyed →
  getState (run ops s) = getState s
  ∧ _tabGroupIdCount (run ops s) = _tabGroupIdCount s
  ∧ assigned_ids ops s = []
  ∧ calls (update actions (run ops s)) = [].
Proof.
  intros Hd.
  assert (H : getState (run ops s) = getState s
              ∧ _tabGroupIdCount (run ops s) = _tabGroupIdCount s).
  { revert s Hd. induction ops as [|o ops IH]; intros s Hd; [done|].
    destruct (run_op_on_destroyed o s Hd) as [Hst Hc].
    cbn [run foldl]. fold (run ops (run_op s o)).
    destruct (IH (run_op s o)) as [-> ->]; [by rewrite Hst|].
    unfold getState, _copy. by rewrite Hst, Hc. }
  destruct H as [Hst Hc]. split; [done|]. split; [done|]. split.
  - destruct (assigned_ids_counter ops s) as [_ ->].
    by rewrite Hc, Nat.sub_diag.
  - apply update_on_destroyed. unfold getState, _copy in Hst. by rewrite Hst.
Qed.

Lemma destroyed_is_final_witness :
  getState (run [ call_subscribe 9%nat;
                  call_update [set_active; update_window_width 640] ]
              destroyed_store)
  = getState destroyed_store.
Proof.
  apply (destroyed_is_final destroyed_store
           [ call_subscribe 9%nat;
             call_update [set_active; update_window_width 640] ] []).
  vm_compute. reflexivity.
Defined.

Lemma applies_status s a s' upd :
  applies s a s' upd → sets_status a = false →
  status (_state s') = status (_state s).
Proof. destruct 1; intros Ha; try discriminate Ha; rewrite ?H; try done. Qed.

Lemma for_actions_status actions l s :
  Forall (λ a, sets_status a = false) actions →
  status (_state (for_actions actions l s).1) = status (_state s).
Proof.
  intros Hall. revert l s. induction Hall as [|a rest Ha _ IH]; intros l s; [done|].
  rewrite for_actions_cons.
  destruct (try_action a l s) as [s' [l'|e]] eqn:Hrun.
  - apply try_action_sound in Hrun as (upd & Happ & _).
    rewrite IH. by eapply applies_status.
  - by apply try_action_throw in Hrun as [-> _].
Qed.

Lemma settle_status s : status (_state (settle s)) = status (_state s).
Proof. unfold settle. by destruct (status (_state s)) eqn:E. Qed.

Lemma update_status actions s :
  status (_state (store_after (update actions s)))
  = status (_state (for_actions actions locals0 s).1).
Proof.
  unfold update. destruct (for_actions actions locals0 s) as [s1 [l|e]]; [|done].
  destruct (dirty l); [|done]. cbn [fst].
  destruct (_listeners (settle s1)); cbn [store_after].
  - case_bool_decide; cbn; apply settle_status.
  - apply settle_status.
Qed.

(** X4: only [set_active], [set_inactive] and [set_destroyed] change the
    status: a call of [update] with none of them in its batch ends, failed
    or not, with the status it started with. *)
Theorem status_changes_only_by_set_actions (actions : list Action) (s : Store) :
  Forall (λ a, sets_status a = false) actions →
  status (getState (store_after (update actions s))) = status (getState s).
Proof.
  intros Hall. unfold getState, _copy. rewrite update_status.
  by apply for_actions_status.
Qed.

Lemma status_changes_only_by_set_actions_witness :
  status (getState (store_after
    (update [ update_window_width 300;
              add_tab_group (example_group d_0_5 d_0_5);
              remove_tab_group "x"; other_action "resize" ] example_store)))
  = status (getState example_store).
Proof.
  apply (status_changes_only_by_set_actions
           [ update_window_width 300;
             add_tab_group (example_group d_0_5 d_0_5);
             remove_tab_group "x"; other_action "resize" ] example_store).
  repeat constructor.
Defined.

(** X5: [set_active] on an inactive store succeeds, changes the status
    alone and has every listener called with three empty lists; a second
    [set_active] then fails, calls nobody and leaves the store as the first
    one left it. *)
Theorem set_active_once
    (s : Store) (f : StateFields) (listeners : gset Listener) :
  _state s = FullState status_inactive f → _listeners s = Some listeners →
  store_after (update [set_active] s) = set__state (FullState status_active f) s
  ∧ calls (update [set_active] s)
    = (λ x, {| listener := x; tabGroupsDiff := empty_diff |}) <$> elements listeners
  ∧ update [set_active] (store_after (update [set_active] s))
    = {| store_after := store_after (update [set_active] s); calls := [];
         console_error := Some SetActiveOnActive; uncaught := None |}.
Proof.
  intros Hs Hl.
  assert (Hrun : for_actions [set_active] locals0 s
                 = (set__state (FullState status_active f) s, Normal (set_dirty locals0))).
  { rewrite for_actions_cons.
    rewrite (try_action_complete set_active s _ set_dirty (applies_set_active s f Hs)).
    reflexivity. }
  rewrite (update_completed _ _ _ _ Hrun eq_refl _ Hl). cbn.
  split; [done|]. split; [done|].
  apply update_failed. rewrite for_actions_cons.
  unfold try_action. unfold_M. reflexivity.
Qed.

Lemma set_active_once_witness :
  console_error (update [set_active]
    (store_after (update [set_active] (run [call_subscribe 7%nat] (init example_host)))))
  = Some SetActiveOnActive.
Proof.
  rewrite (proj2 (proj2 (set_active_once
             (run [call_subscribe 7%nat] (init example_host))
             initial_fields {[ 7%nat ]} eq_refl eq_refl))).
  reflexivity.
Defined.

Lemma unknown_action_throws actions l s type :
  other_action type ∈ actions → ∃ s' e, for_actions actions l s = (s', Throw e).
Proof.
  revert l s. induction actions as [|a rest IH]; intros l s Hin.
  - by apply elem_of_nil in Hin.
  - rewrite for_actions_cons.
    destruct (try_action a l s) as [s' [l'|e]] eqn:Ha; [|eauto].
    apply elem_of_cons in Hin as [<-|Hin]; [|by apply IH].
    apply try_action_sound in Ha as (upd & Happ & _). inversion Happ.
Qed.

(** X6: a batch with an action of unknown type in it never calls a
    listener: the batch fails at that action, or before. *)
Theorem unknown_action_silences_batch
    (actions : list Action) (s : Store) (type : string) :
  other_action type ∈ actions →
  calls (update actions s) = [] ∧ is_Some (console_error (update actions s)).
Proof.
  intros Hin.
  destruct (unknown_action_throws actions locals0 s type Hin) as (s' & e & Hrun).
  rewrite (update_failed _ _ _ _ Hrun). cbn. eauto.
Qed.

Lemma unknown_action_silences_batch_witness :
  calls (update [update_window_width 300; other_action "resize"] example_store) = [].
Proof.
  apply (unknown_action_silences_batch
           [update_window_width 300; other_action "resize"] example_store "resize").
  apply elem_of_cons. right. apply elem_of_cons. by left.
Defined.

(** ** Invariants of the fields *)

Lemma selection_invariant_applies utils s a s' upd :
  applies s a s' upd → selection_invariant utils s → selection_invariant utils s'.
Proof.
  unfold selection_invariant.
  destruct 1 as [f Hs|f Hs|st f Hs Hst|st f v Hs Hst Hv Hw|st f v Hs Hst Hv Hw
                |st f v Hs Hst Hv|st f g Hs Hst Hg|st f v Hs Hst|st f v ds Hs Hst];
    rewrite ?Hs; cbn; try done.
  intros [Hu _]. split; [done|]. right. by rewrite <- Hu.
Qed.

Lemma selection_invariant_run utils ops :
  selection_invariant utils (run ops (init utils)).
Proof.
  apply run_preserves.
  - apply selection_invariant_applies.
  - intros s [Hu _]. split; [done|]. by left.
  - by intros s [Hu _].
  - by intros s l H.
  - split; [done|]. by left.
Qed.

(** X8: in every state a store reaches from [init], the selected panel is
    the empty string or a panel for which the host's tab lookup answers. *)
Theorem selected_panel_is_known (utils : Utils) (ops : list Op) :
  match getState (run ops (init utils)) with
  | FullState _ f =>
      selectedLinkedPanel f = ""
      ∨ getTabByLinkedPanel utils (selectedLinkedPanel f) = true
  | DestroyedOnly => True
  end.
Proof.
  apply (proj2 (selection_invariant_run utils ops)).
Qed.

Lemma accepted_as_checked utils state g newId :
  accepted utils state g → stored_as_checked utils newId (with_id newId g).
Proof.
  intros (Hlayout & _ & t0 & t1 & Htabs & C0 & C1 & V0 & V1 & _).
  split; [done|]. split.
  { unfold VALID_LAYOUTS in Hlayout. by apply list_elem_of_singleton in Hlayout. }
  exists t0, t1. cbn. split; [done|]. split; [done|]. split; [done|].
  unfold _isValidTab in V0, V1.
  destruct (getTabByLinkedPanel utils (linkedPanel t0));
    [|by rewrite orb_true_r in V0].
  destruct (getTabByLinkedPanel utils (linkedPanel t1));
    [done|by rewrite orb_true_r in V1].
Qed.

Lemma groups_as_checked_applies utils s a s' upd :
  applies s a s' upd → groups_as_checked utils s → groups_as_checked utils s'.
Proof.
  unfold groups_as_checked.
  destruct 1 as [f Hs|f Hs|st f Hs Hst|st f v Hs Hst Hv Hw|st f v Hs Hst Hv Hw
                |st f v Hs Hst Hv|st f g Hs Hst Hg|st f v Hs Hst|st f v ds Hs Hst];
    rewrite ?Hs; cbn; try done.
  intros [Hu Hall]. split; [done|]. rewrite Hu in Hg.
  intros i h. rewrite lookup_insert_Some.
  intros [[<- <-]|[_ Hi]]; [|by apply Hall].
  by eapply accepted_as_checked.
Qed.

Lemma groups_as_checked_run utils ops :
  groups_as_checked utils (run ops (init utils)).
Proof.
  apply run_preserves.
  - apply groups_as_checked_applies.
  - intros s [Hu _]. split; [done|]. cbn. intros i g. by rewrite lookup_empty.
  - by intros s [Hu _].
  - by intros s l H.
  - split; [done|]. cbn. intros i g. by rewrite lookup_empty.
Qed.

(** X9: in every state a store reaches from [init], each stored group sits
    under its own id, has the layout "column_split", and two tabs in
    columns 0 and 1 whose panels the host's tab lookup answers for. *)
Theorem stored_groups_as_checked (utils : Utils) (ops : list Op) :
  match getState (run ops (init utils)) with
  | FullState _ f => ∀ i g, tabGroups f !! i = Some g → stored_as_checked utils i g
  | DestroyedOnly => True
  end.
Proof.
  apply (proj2 (groups_as_checked_run utils ops)).
Qed.

(** ** Adding groups *)

(** X10: what a successful [add_tab_group] does to a store that [init] and
    calls from outside have produced: the new id is the prefix and the
    counter, it was not in use, the copy of the group is stored under it with
    its [id] set, the id goes to the end of [tabGroupIds], every group stored
    before is still there, the counter moves on by one, and status, window
    width and selected panel stay. *)
Theorem add_tab_group_appends
    (utils : Utils) (ops : list Op) (g : TabGroup) (s' : Store) (l : Locals) :
  try_action (add_tab_group g) locals0 (run ops (init utils)) = (s', Normal l) →
  ∃ st f f',
    _state (run ops (init utils)) = FullState st f
    ∧ _state s' = FullState st f'
    ∧ added (diff l) = [new_id (_tabGroupIdCount (run ops (init utils)))]
    ∧ (new_id (_tabGroupIdCount (run ops (init utils))) ∉ tabGroupIds f)
    ∧ tabGroupIds f' = tabGroupIds f ++ [new_id (_tabGroupIdCount (run ops (init utils)))]
    ∧ tabGroups f' !! (new_id (_tabGroupIdCount (run ops (init utils))))
      = Some (with_id (new_id (_tabGroupIdCount (run ops (init utils)))) g)
    ∧ (∀ i h, tabGroups f !! i = Some h → tabGroups f' !! i = Some h)
    ∧ _tabGroupIdCount s' = S (_tabGroupIdCount (run ops (init utils)))
    ∧ windowWidth f' = windowWidth f
    ∧ selectedLinkedPanel f' = selectedLinkedPanel f.
Proof.
  intros Ha. pose proof (ids_invariant_run utils ops) as [Hkeys Hbelow].
  set (s := run ops (init utils)) in *.
  apply try_action_sound in Ha as (upd & Happ & ->).
  inversion Happ as [| | | | | |st f g' Hs Hst Hg| |]; subst.
  unfold ids_below_count in Hbelow. rewrite Hs in Hkeys, Hbelow.
  destruct Hkeys as (_ & _ & Hkeys).
  assert (Hfresh : new_id (_tabGroupIdCount s) ∉ tabGroupIds f).
  { intros Hin. apply Hbelow in Hin as (k & Hk & Heq).
    apply (inj new_id) in Heq. lia. }
  exists st, f, (store_group (with_id (new_id (_tabGroupIdCount s)) g) f).
  split; [done|]. split; [done|]. split; [done|]. split; [done|].
  split; [done|]. split; [apply lookup_insert_eq|]. split; [|done].
  intros i h Hi. cbn. rewrite lookup_insert_ne; [done|].
  intros <-. apply Hfresh, Hkeys. eauto.
Qed.

Lemma add_tab_group_appends_witness :
  ∃ st f f',
    _state (run [call_update [set_active]] (init example_host)) = FullState st f
    ∧ _state (try_action (add_tab_group (example_group d_0_5 d_0_5)) locals0
                (run [call_update [set_active]] (init example_host))).1
      = FullState st f'
    ∧ tabGroupIds f' = tabGroupIds f ++ ["tabsplit-tab-group-id-0"].
Proof.
  destruct (add_tab_group_appends example_host [call_update [set_active]]
              (example_group d_0_5 d_0_5)
              (try_action (add_tab_group (example_group d_0_5 d_0_5)) locals0
                 (run [call_update [set_active]] (init example_host))).1
              (set_dirty (push_added "tabsplit-tab-group-id-0" locals0)))
    as (st & f & f' & H1 & H2 & _ & _ & H5 & _).
  - reflexivity.
  - exists st, f, f'. split; [done|]. split; [done|]. exact H5.
Defined.

Lemma applies_keeps_stored s a s' upd i :
  applies s a s' upd → id_stored i (_state s) → id_stored i (_state s').
Proof.
  unfold id_stored.
  destruct 1 as [f Hs|f Hs|st f Hs Hst|st f v Hs Hst Hv Hw|st f v Hs Hst Hv Hw
                |st f v Hs Hst Hv|st f g Hs Hst Hg|st f v Hs Hst|st f v ds Hs Hst];
    rewrite ?Hs; cbn; try done;
    intros (f0 & [= <-] & Hin & Hsome); eexists; (split; [done|]); cbn; try done.
  split; [apply elem_of_app; by left|].
  apply lookup_insert_is_Some.
  destruct (decide (new_id (_tabGroupIdCount s) = i)); [by left|by right].
Qed.

Lemma for_actions_added_stored actions l s s1 l1 :
  for_actions actions l s = (s1, Normal l1) →
  (∀ i, i ∈ added (diff l) → id_stored i (_state s)) →
  ∀ i, i ∈ added (diff l1) → id_stored i (_state s1).
Proof.
  revert l s. induction actions as [|a rest IH]; intros l s.
  - by intros [= <- <-].
  - rewrite for_actions_cons.
    destruct (try_action a l s) as [s' [l'|e]] eqn:Ha; [|discriminate].
    intros Hrest Hall. apply (IH _ _ Hrest).
    apply try_action_sound in Ha as (upd & Happ & ->).
    intros i Hi.
    assert (Hold : i ∈ added (diff l) → id_stored i (_state s')).
    { intros Hin. eapply applies_keeps_stored; [done|]. by apply Hall. }
    destruct Happ as [f Hs|f Hs|st f Hs Hst|st f v Hs Hst Hv Hw|st f v Hs Hst Hv Hw
                |st f v Hs Hst Hv|st f g Hs Hst Hg|st f v Hs Hst|st f v ds Hs Hst];
      cbn in Hi; try (by apply Hold).
    apply elem_of_app in Hi as [Hi|Hi]; [by apply Hold|].
    apply list_elem_of_singleton in Hi as ->.
    eexists. split; [reflexivity|]. cbn. split.
    + apply elem_of_app. right. by apply list_elem_of_singleton.
    + rewrite lookup_insert_eq. eauto.
Qed.

(** X11: when [update] calls the listeners and ends with the status
    active, every id in the [added] list they are given is in
    [tabGroupIds] and a key of [tabGroups] in the state they can read. *)
Theorem added_ids_are_stored
    (actions : list Action) (s : Store) (c : Call) (i : string) :
  c ∈ calls (update actions s) →
  status (getState (store_after (update actions s))) = status_active →
  i ∈ added (tabGroupsDiff c) →
  id_stored i (getState (store_after (update actions s))).
Proof.
  intros Hc Hst Hi.
  assert (Hne : calls (update actions s) ≠ []).
  { intros E. rewrite E in Hc. by apply elem_of_nil in Hc. }
  destruct (update_calls_inv _ _ Hne)
    as (s1 & l & ls & Hrun & Hd & Hls & Hcalls & _).
  rewrite Hcalls in Hc. apply list_elem_of_fmap in Hc as (x & -> & _).
  cbn in Hi.
  pose proof (for_actions_added_stored _ _ _ _ _ Hrun) as Hstored.
  unfold getState, _copy in *. rewrite update_status, Hrun in Hst. cbn in Hst.
  assert (Hafter : _state (store_after (update actions s)) = _state s1).
  { unfold update. rewrite Hrun, Hd, Hls. cbn.
    unfold settle. rewrite Hst. by case_bool_decide. }
  rewrite Hafter. apply Hstored; [|done].
  intros j Hj. by apply elem_of_nil in Hj.
Qed.

Lemma added_ids_are_stored_witness :
  id_stored "tabsplit-tab-group-id-0" (getState split_store).
Proof.
  apply (added_ids_are_stored [add_tab_group (example_group d_0_5 d_0_5)]
           example_store
           {| listener := 7%nat;
              tabGroupsDiff := {| added := ["tabsplit-tab-group-id-0"];
                                  removed := []; updated := [] |} |}).
  - vm_compute. apply list_elem_of_here.
  - vm_compute. reflexivity.
  - apply list_elem_of_here.
Defined.

(** X12: an [add_tab_group] that succeeds while the status is inactive is
    lost: the listeners are given the new id and the counter moves on, but
    the reset at the end of [update] leaves the state with no group at all. *)
Theorem add_while_inactive_is_lost
    (s : Store) (g : TabGroup) (listeners : gset Listener) :
  status (_state s) = status_inactive → _listeners s = Some listeners →
  succeeds (add_tab_group g) s →
  calls (update [add_tab_group g] s)
  = (λ x, {| listener := x;
             tabGroupsDiff := {| added := [new_id (_tabGroupIdCount s)];
                                 removed := []; updated := [] |} |})
      <$> elements listeners
  ∧ getState (store_after (update [add_tab_group g] s))
    = FullState status_inactive initial_fields
  ∧ _tabGroupIdCount (store_after (update [add_tab_group g] s))
    = S (_tabGroupIdCount s).
Proof.
  intros Hst Hl (s' & l & Ha).
  apply try_action_sound in Ha as (upd & Happ & _).
  inversion Happ as [| | | | | |st f g' Hs Hne Hg| |]; subst.
  rewrite Hs in Hst. cbn in Hst. subst st.
  assert (Hrun : for_actions [add_tab_group g] locals0 s
                 = (with_group g status_inactive f s,
                    Normal (set_dirty (push_added (new_id (_tabGroupIdCount s)) locals0)))).
  { rewrite for_actions_cons. by rewrite (try_action_complete _ _ _ _ Happ locals0). }
  rewrite (update_completed _ _ _ _ Hrun eq_refl _ Hl). cbn. done.
Qed.

Lemma add_while_inactive_is_lost_witness :
  getState (store_after (update [add_tab_group (example_group d_0_5 d_0_5)]
                           (run [call_subscribe 7%nat] (init example_host))))
  = FullState status_inactive initial_fields.
Proof.
  apply (add_while_inactive_is_lost (run [call_subscribe 7%nat] (init example_host))
           (example_group d_0_5 d_0_5) {[ 7%nat ]}).
  - reflexivity.
  - reflexivity.
  - eexists _, _. reflexivity.
Defined.

(** ** Batches and separate calls *)

Lemma update_completed_active actions s s1 l :
  for_actions actions locals0 s = (s1, Normal l) →
  status (_state s1) = status_active →
  store_after (update actions s) = s1.
Proof.
  intros Hrun Hst. unfold update. rewrite Hrun.
  destruct (dirty l); [|done].
  unfold settle. rewrite Hst.
  destruct (_listeners s1); [|done]. cbn. rewrite Hst. by case_bool_decide.
Qed.

Lemma store_after_by_dirty actions s s1 l l' :
  for_actions actions locals0 s = (s1, Normal l) → (dirty l = true → dirty l' = true) →
  (dirty l = false → s1 = s) → status (_state s) = status_active →
  store_after
    (if dirty l' then
       match _listeners (settle s1) with
       | None => {| store_after := settle s1; calls := []; console_error := None;
                    uncaught := Some TypeError |}
       | Some listeners =>
           {| store_after :=
                if bool_decide (status (_state (settle s1)) = status_destroyed)
                then set__listeners None (settle s1) else settle s1;
              calls := (λ x, {| listener := x; tabGroupsDiff := diff l' |})
                         <$> elements listeners;
              console_error := None; uncaught := None |}
       end
     else {| store_after := s1; calls := []; console_error := None; uncaught := None |})
  = store_after (update actions s).
Proof.
  intros Hrun Himp Hsame Hst. unfold update. rewrite Hrun.
  destruct (dirty l) eqn:Hd.
  - rewrite Himp by done. by destruct (_listeners (settle s1)).
  - rewrite (Hsame eq_refl). destruct (dirty l'); [|done].
    unfold settle. rewrite Hst.
    destruct (_listeners s); [|done]. cbn. rewrite Hst. by case_bool_decide.
Qed.

(** X13: splitting a batch. If the first part of a batch runs to its end
    and leaves the status active, then one call of [update] with the whole
    batch leaves the same store as a call with the first part followed by a
    call with the rest. *)
Theorem batch_can_be_split
    (xs ys : list Action) (s s1 : Store) (l1 : Locals) :
  for_actions xs locals0 s = (s1, Normal l1) →
  status (_state s1) = status_active →
  store_after (update (xs ++ ys) s)
  = store_after (update ys (store_after (update xs s))).
Proof.
  intros Hxs Hst. rewrite (update_completed_active _ _ _ _ Hxs Hst).
  destruct (for_actions_uniform ys s1)
    as [(s' & e & Hthrow)|(s' & U & Hrun & Hmono & Hkind)].
  - rewrite (update_failed (xs ++ ys) s s' e)
      by (by rewrite for_actions_app, Hxs, Hthrow).
    by rewrite (update_failed ys s1 s' e) by apply Hthrow.
  - rewrite <- (store_after_by_dirty ys s1 s' (U locals0) (U l1)).
    + unfold update at 1. by rewrite for_actions_app, Hxs, Hrun.
    + apply Hrun.
    + destruct Hkind as [Hall|[Hid _]]; [by rewrite Hall|].
      rewrite Hid. discriminate.
    + destruct Hkind as [Hall|[_ Hs']]; [by rewrite Hall|done].
    + done.
Qed.

Lemma batch_can_be_split_witness :
  store_after (update ([update_window_width 1024] ++ [set_inactive; set_active])
                 example_store)
  = store_after (update [set_inactive; set_active]
                   (store_after (update [update_window_width 1024] example_store))).
Proof.
  apply (batch_can_be_split [update_window_width 1024] [set_inactive; set_active]
           example_store widened_store (set_dirty locals0)).
  - reflexivity.
  - reflexivity.
Defined.

(** With the status inactive in between the two differ: the separate call
    resets the fields, the batch does not. *)
Example batch_split_needs_active :
  getState (store_after (update ([set_inactive] ++ [set_active]) split_store))
  ≠ getState (store_after (update [set_active]
                             (store_after (update [set_inactive] split_store)))).
Proof. vm_compute. discriminate. Qed.

(** ** Validation *)

Lemma le_zero_iff x : le x zero = false ↔ is_nan x = true ∨ lt zero x = true.
Proof.
  destruct x as [[]|[]| |[] m e]; cbn; split;
    first [ intros [H|H]; first [reflexivity | discriminate H]
          | intros H; first [ discriminate H | by left | by right ] ].
Qed.

Lemma ge_one_iff x : ge x one = false ↔ is_nan x = true ∨ lt x one = true.
Proof.
  split.
  - intros H. destruct (is_nan x) eqn:N; [by left|]. right. by apply below_one.
  - destruct x as [[]|[]| |[] m e];
      try (intros [H|H]; first [reflexivity | discriminate H]).
    intros [H|H]; [discriminate H|]. revert H.
    unfold ge, lt, SFleb, SFltb, one; cbn [SFcompare].
    rewrite (Z.compare_antisym e (-52)).
    destruct (e ?= -52)%Z; cbn [CompOpp];
      try (intros; reflexivity); try (intros H; discriminate H).
    assert (Pos.compare_cont Eq m 4503599627370496
            = CompOpp (Pos.compare_cont Eq 4503599627370496 m)) as ->
      by (symmetry; apply (Pos.compare_cont_antisym 4503599627370496 m Eq)).
    destruct (Pos.compare_cont Eq 4503599627370496 m); cbn [CompOpp];
      first [ intros; reflexivity | intros H; discriminate H ].
Qed.

(** [_isValidTab] in the model, where [col] is an integer. *)
Lemma _isValidTab_cases (utils : Utils) (tab : Tab) :
  _isValidTab utils tab = true
  ↔ (col tab = 0 ∨ col tab = 1)
    ∧ (is_nan (distribution tab) = true
       ∨ (lt zero (distribution tab) = true ∧ lt (distribution tab) one = true))
    ∧ getTabByLinkedPanel utils (linkedPanel tab) = true.
Proof.
  unfold _isValidTab.
  destruct (getTabByLinkedPanel utils (linkedPanel tab));
    [|rewrite orb_true_r; split; [discriminate|by intros (_ & _ & ?)]].
  rewrite orb_false_r.
  destruct (le (distribution tab) zero) eqn:L.
  { rewrite orb_true_r. split; [discriminate|]. intros (_ & [N|[P _]] & _).
    - assert (le (distribution tab) zero = false) by (apply le_zero_iff; by left).
      congruence.
    - assert (le (distribution tab) zero = false) by (apply le_zero_iff; by right).
      congruence. }
  destruct (ge (distribution tab) one) eqn:G.
  { rewrite orb_true_r. split; [discriminate|]. intros (_ & [N|[_ P]] & _).
    - assert (ge (distribution tab) one = false) by (apply ge_one_iff; by left).
      congruence.
    - assert (ge (distribution tab) one = false) by (apply ge_one_iff; by right).
      congruence. }
  rewrite orb_false_r.
  apply le_zero_iff in L. apply ge_one_iff in G.
  destruct (col tab <? 0) eqn:C0; [apply Z.ltb_lt in C0|apply Z.ltb_ge in C0].
  { cbn. split; [discriminate|]. intros ([?|?] & _); lia. }
  destruct (col tab >? 1) eqn:C1.
  { cbn. split; [discriminate|]. intros ([?|?] & _); apply Z.gtb_lt in C1; lia. }
  cbn. split; [|done]. intros _.
  assert (col tab ≤ 1) by (rewrite Z.gtb_ltb in C1; by apply Z.ltb_ge in C1).
  split; [lia|]. split; [|done].
  destruct (is_nan (distribution tab)) eqn:N; [by left|right].
  destruct L as [?|?], G as [?|?]; done.
Qed.

(** X14: what [_isValidTab] makes of the distribution. A tab on a panel the
    host does not know is not valid, nor is one with [col] below 0 or above
    1. For a tab in column 0 or 1 on a known panel, the answer is true
    exactly when the distribution is strictly between 0 and 1 or is NaN:
    NaN fails both comparisons of the test, so it is let through here. *)
Theorem _isValidTab_lets_nan_through (utils : Utils) (tab : Tab) :
  (getTabByLinkedPanel utils (linkedPanel tab) = false →
     _isValidTab utils tab = false)
  ∧ (col tab < 0 ∨ 1 < col tab → _isValidTab utils tab = false)
  ∧ (col tab = 0 ∨ col tab = 1 →
     getTabByLinkedPanel utils (linkedPanel tab) = true →
     (_isValidTab utils tab = true
      ↔ is_nan (distribution tab) = true
        ∨ (lt zero (distribution tab) = true ∧ lt (distribution tab) one = true))).
Proof.
  split; [|split].
  - intros Hk. destruct (_isValidTab utils tab) eqn:V; [|done].
    apply _isValidTab_cases in V as (_ & _ & K). congruence.
  - intros Hc. destruct (_isValidTab utils tab) eqn:V; [|done].
    apply _isValidTab_cases in V as ([?|?] & _); lia.
  - intros Hc Hk. rewrite _isValidTab_cases. split.
    + by intros (_ & Hd & _).
    + by intros Hd.
Qed.

Lemma _isValidTab_lets_nan_through_witness :
  _isValidTab example_host
    {| linkedPanel := "p1"; col := 0; distribution := S754_nan |} = true.
Proof.
  apply (_isValidTab_lets_nan_through example_host
           {| linkedPanel := "p1"; col := 0; distribution := S754_nan |}).
  - by left.
  - reflexivity.
  - by left.
Defined.

(** A NaN distribution passes [_isValidTab]... *)
Example nan_tab_is_valid :
  _isValidTab example_host
    {| linkedPanel := "p1"; col := 0; distribution := S754_nan |} = true.
Proof. vm_compute. reflexivity. Qed.

Lemma lt_not_nan_l x y : lt x y = true → is_nan x = false.
Proof. by destruct x. Qed.

Lemma lt_not_nan_r x y : lt x y = true → is_nan y = false.
Proof. destruct x, y; first [ reflexivity | discriminate ]. Qed.

Lemma accepted_not_malformed utils state g :
  accepted utils state g → ¬ malformed utils g.
Proof.
  intros (Hlayout & Hcolor & t0 & t1 & Htabs & C0 & C1 & V0 & V1 & _ & _ & Hne & Hsum)
    Hbad.
  rewrite eq_one_sum_from_zero in Hsum.
  destruct (sum_one_not_nan _ _ Hsum) as [N0 N1].
  apply _isValidTab_cases in V0 as (_ & [D0|[D0 D0']] & K0); [congruence|].
  apply _isValidTab_cases in V1 as (_ & [D1|[D1 D1']] & K1); [congruence|].
  destruct Hbad as [H|[H|[H|[(i & t & Hi & H)|(t0' & t1' & Ht & H)]]]].
  - apply H. by apply list_elem_of_singleton in Hlayout.
  - done.
  - by rewrite Htabs in H.
  - rewrite Htabs in Hi.
    destruct i as [|[|i]]; cbn in Hi; [| |done]; injection Hi as <-;
      destruct H as [H|[H|[H|[H|H]]]]; first [ by destruct H | congruence ].
  - rewrite Htabs in Ht. injection Ht as <- <-. by destruct Hne.
Qed.

(** X15: [add_tab_group] refuses every malformed group, whatever the store
    holds: a layout other than "column_split", an empty colour, a number of
    tabs other than two, a tab whose [col] is not its position, whose panel
    the host does not know or whose distribution is NaN or not strictly
    between 0 and 1, or the same panel in both tabs. The store is left as
    it is and nobody is notified. *)
Theorem malformed_group_is_refused (s : Store) (g : TabGroup) :
  malformed (_utils s) g →
  ∃ e, update [add_tab_group g] s =
         {| store_after := s; calls := []; console_error := Some e;
            uncaught := None |}.
Proof.
  intros Hbad.
  destruct (add_tab_group_throws_or_accepts g locals0 s)
    as [[e He]|(st & f & _ & Hacc)].
  - exists e. apply update_failed. rewrite for_actions_cons. by rewrite He.
  - by destruct (accepted_not_malformed _ _ _ Hacc).
Qed.

Lemma malformed_group_is_refused_witness :
  ∃ e, update [add_tab_group (example_group d_0_5 S754_nan)] example_store =
         {| store_after := example_store; calls := []; console_error := Some e;
            uncaught := None |}.
Proof.
  apply (malformed_group_is_refused example_store (example_group d_0_5 S754_nan)).
  right. right. right. left.
  exists 1%nat, {| linkedPanel := "p2"; col := 1; distribution := S754_nan |}.
  split; [reflexivity|]. right. right. by left.
Defined.

(** X16: a panel is not split twice. With a host whose group lookup
    answers for the panels of stored groups, an [add_tab_group] naming a
    panel of a stored group fails in every store reached from [init]; the
    store is left as it is and nobody is notified. *)
Theorem split_panel_is_refused
    (utils : Utils) (ops : list Op) (g : TabGroup) (p i : string)
    (f : StateFields) (h : TabGroup) :
  lookup_reports_members utils →
  fields (getState (run ops (init utils))) = Some f →
  tabGroups f !! i = Some h → p ∈ panels h → p ∈ panels g →
  ∃ e, update [add_tab_group g] (run ops (init utils)) =
         {| store_after := run ops (init utils); calls := [];
            console_error := Some e; uncaught := None |}.
Proof.
  intros Hu Hf Hi Hph Hpg.
  destruct (groups_invariant_run utils Hu ops) as [Hutils _].
  set (s := run ops (init utils)) in *.
  destruct (add_tab_group_throws_or_accepts g locals0 s)
    as [[e He]|(st & f' & Hs & Hacc)].
  - exists e. apply update_failed. rewrite for_actions_cons. by rewrite He.
  - unfold getState, _copy in Hf. rewrite Hs in Hf, Hacc. injection Hf as ->.
    rewrite Hutils in Hacc.
    by destruct (accepted_not_member utils Hu _ _ _ p i h Hacc Hpg Hi).
Qed.

Lemma split_panel_is_refused_witness :
  ∃ e, update [add_tab_group (example_group d_0_5 d_0_5)] split_store =
         {| store_after := split_store; calls := [];
            console_error := Some e; uncaught := None |}.
Proof.
  apply (split_panel_is_refused example_host
           [ call_subscribe 7%nat;
             call_update [set_active];
             call_update [update_window_width 800];
             call_update [add_tab_group (example_group d_0_5 d_0_5)] ]
           (example_group d_0_5 d_0_5) "p1" "tabsplit-tab-group-id-0"
           {| windowWidth := 800; selectedLinkedPanel := "";
              tabGroupIds := ["tabsplit-tab-group-id-0"];
              tabGroups :=
                {[ "tabsplit-tab-group-id-0" :=
                     with_id "tabsplit-tab-group-id-0" (example_group d_0_5 d_0_5) ]} |}
           (with_id "tabsplit-tab-group-id-0" (example_group d_0_5 d_0_5))).
  - apply host_reports_members.
  - vm_compute. reflexivity.
  - vm_compute. reflexivity.
  - apply list_elem_of_here.
  - apply list_elem_of_here.
Defined.

(** ** The stub [_updateTabDistributions] and the order of the ids *)

(** X17: [update_tab_distibutions] changes no distribution. On an active
    store it succeeds for any id, stored or not, and any list of
    distributions, leaves the whole store as it is, and has every listener
    called with the id as the only updated one. *)
Theorem update_tab_distibutions_changes_nothing
    (s : Store) (v : string) (ds : list number) (listeners : gset Listener) :
  status (_state s) = status_active → _listeners s = Some listeners →
  update [update_tab_distibutions v ds] s =
    {| store_after := s;
       calls := (λ x, {| listener := x;
                         tabGroupsDiff := {| added := []; removed := [];
                                             updated := [v] |} |})
                  <$> elements listeners;
       console_error := None; uncaught := None |}.
Proof.
  intros Hst Hl.
  assert (Hrun : for_actions [update_tab_distibutions v ds] locals0 s
                 = (s, Normal (set_dirty (push_updated v locals0)))).
  { rewrite for_actions_cons.
    destruct (_state s) as [st f|] eqn:Hs; [|discriminate Hst].
    cbn in Hst. subst st.
    by rewrite (try_action_complete (update_tab_distibutions v ds) s s
                  (λ l, set_dirty (push_updated v l)) (applies_distributions s _ f v ds Hs ltac:(done))). }
  rewrite (update_completed _ _ _ _ Hrun eq_refl _ Hl).
  unfold settle. rewrite Hst. cbn. rewrite Hst. by case_bool_decide.
Qed.

Lemma update_tab_distibutions_changes_nothing_witness :
  store_after (update [update_tab_distibutions "tabsplit-tab-group-id-0" [d_0_4; d_0_4]]
                 split_store)
  = split_store.
Proof.
  rewrite (update_tab_distibutions_changes_nothing split_store
             "tabsplit-tab-group-id-0" [d_0_4; d_0_4] {[ 7%nat ]}).
  - reflexivity.
  - vm_compute. reflexivity.
  - vm_compute. reflexivity.
Defined.

Lemma order_invariant_applies s a s' upd :
  applies s a s' upd → order_invariant s → order_invariant s'.
Proof.
  unfold order_invariant, ids_below_count.
  destruct 1 as [f Hs|f Hs|st f Hs Hst|st f v Hs Hst Hv Hw|st f v Hs Hst Hv Hw
                |st f v Hs Hst Hv|st f g Hs Hst Hg|st f v Hs Hst|st f v ds Hs Hst];
    rewrite ?Hs; cbn; try done.
  intros [Hbelow Horder]. set (n := _tabGroupIdCount s) in *. split.
  - intros i. rewrite elem_of_app, list_elem_of_singleton.
    intros [Hi| ->].
    + apply Hbelow in Hi as (k & Hk & ->). exists k. split; [lia|done].
    + exists n. split; [lia|done].
  - intros a b k k' Hab Ha Hb.
    apply lookup_app_Some in Ha as [Ha|[Hla Ha]];
      apply lookup_app_Some in Hb as [Hb|[Hlb Hb]].
    + by eapply Horder.
    + apply list_lookup_singleton_Some in Hb as [_ Hb].
      apply (inj new_id) in Hb. subst k'.
      apply list_elem_of_lookup_2, Hbelow in Ha as (k0 & Hk0 & Hk).
      apply (inj new_id) in Hk. by subst k0.
    + apply lookup_lt_Some in Hb. lia.
    + apply list_lookup_singleton_Some in Ha as [Ha _].
      apply list_lookup_singleton_Some in Hb as [Hb _]. lia.
Qed.

(** X18: [tabGroupIds] is in the order of creation: in every state a store
    reaches from [init], an id further right was made from a larger counter
    value than every id to its left. *)
Theorem ids_kept_in_creation_order (utils : Utils) (ops : list Op) :
  ids_in_creation_order (getState (run ops (init utils))).
Proof.
  apply (run_preserves order_invariant).
  - apply order_invariant_applies.
  - intros s _. split; cbn; [by intros i Hi%elem_of_nil|done].
  - by intros s _.
  - by intros s l H.
  - split; cbn; [by intros i Hi%elem_of_nil|done].
Qed.

(** ** The listener set and the cleared state *)

Lemma applies_full s a s' upd :
  applies s a s' upd → _state s ≠ DestroyedOnly → _state s' ≠ DestroyedOnly.
Proof. by destruct 1. Qed.

Lemma null_when_cleared_update actions s :
  null_when_cleared s → null_when_cleared (store_after (update actions s)).
Proof.
  intros Hs. destruct (_listeners s) as [listeners|] eqn:Hl.
  - assert (Hfull : _state s ≠ DestroyedOnly).
    { intros E. apply (proj2 Hs) in E. congruence. }
    pose proof (proj1 (for_actions_frame actions locals0 s)) as Hf.
    pose proof (for_actions_preserves (λ s, _state s ≠ DestroyedOnly)
                  applies_full actions locals0 s Hfull) as Hfull1.
    assert (Hkeep : ∀ s1, _listeners s1 = Some listeners →
              _state s1 ≠ DestroyedOnly → null_when_cleared s1).
    { intros s1 H1 H2. split; [intros E; congruence|done]. }
    unfold update.
    destruct (for_actions actions locals0 s) as [s1 [l|e]]; cbn in Hf, Hfull1;
      [|cbn; apply Hkeep; congruence].
    destruct (dirty l); [|cbn; apply Hkeep; congruence].
    rewrite (proj1 (settle_frame s1)), Hf, Hl. cbn.
    unfold settle.
    destruct (status (_state s1)) eqn:E; cbn.
    + rewrite E. rewrite bool_decide_eq_false_2 by done.
      apply Hkeep; congruence.
    + rewrite bool_decide_eq_false_2 by done. by apply Hkeep; [cbn; congruence|].
    + by rewrite bool_decide_eq_true_2 by done.
  - assert (Hd : status (_state s) = status_destroyed)
      by (by rewrite (proj1 Hs Hl)).
    by rewrite (proj1 (update_on_destroyed actions s Hd)).
Qed.

Lemma null_when_cleared_run ops utils : null_when_cleared (run ops (init utils)).
Proof.
  unfold run. induction ops as [|o ops IH] using rev_ind; [done|].
  rewrite foldl_app. cbn [foldl].
  set (s := foldl run_op (init utils) ops) in *.
  destruct o as [actions|x|x]; cbn [run_op].
  - by apply null_when_cleared_update.
  - unfold subscribe. unfold_M. destruct (_listeners s) eqn:Hl; [|done].
    case_bool_decide; [done|]. cbn. split; [intros Hn; discriminate Hn|].
    intros E. cbn in E. apply (proj2 IH) in E. congruence.
  - unfold unsubscribe. unfold_M. destruct (_listeners s) eqn:Hl; [|done].
    case_bool_decide; [|done]. cbn. split; [intros Hn; discriminate Hn|].
    intros E. cbn in E. apply (proj2 IH) in E. congruence.
Qed.

(** X20: in a store's life from [init], with listeners that return,
    [_listeners] is [null] exactly when the state is the literal with the
    status alone, which a destroy that ran to its end leaves; [subscribe]
    and [unsubscribe] throw exactly then, and return normally otherwise. *)
Theorem listeners_null_exactly_when_cleared
    (utils : Utils) (ops : list Op) (x : Listener) :
  (_listeners (run ops (init utils)) = None
   ↔ getState (run ops (init utils)) = DestroyedOnly)
  ∧ (subscribe x (run ops (init utils))
       = (run ops (init utils), Throw TypeError)
     ↔ getState (run ops (init utils)) = DestroyedOnly)
  ∧ (unsubscribe x (run ops (init utils))
       = (run ops (init utils), Throw TypeError)
     ↔ getState (run ops (init utils)) = DestroyedOnly)
  ∧ (getState (run ops (init utils)) ≠ DestroyedOnly →
     (subscribe x (run ops (init utils))).2 = Normal tt
     ∧ (unsubscribe x (run ops (init utils))).2 = Normal tt).
Proof.
  pose proof (null_when_cleared_run ops utils) as Hs.
  set (s := run ops (init utils)) in *. unfold getState, _copy.
  split; [exact Hs|]. split; [|split].
  - unfold subscribe. unfold_M. destruct (_listeners s) eqn:Hl.
    + split; [case_bool_decide; discriminate|].
      intros E. apply (proj2 Hs) in E. congruence.
    + split; [intros _; by apply (proj1 Hs)|done].
  - unfold unsubscribe. unfold_M. destruct (_listeners s) eqn:Hl.
    + split; [case_bool_decide; discriminate|].
      intros E. apply (proj2 Hs) in E. congruence.
    + split; [intros _; by apply (proj1 Hs)|done].
  - intros Hfull. unfold subscribe, unsubscribe. unfold_M.
    destruct (_listeners s) eqn:Hl.
    + split; by case_bool_decide.
    + destruct Hfull. by apply (proj1 Hs).
Qed.

(** After a destroy [subscribe] does throw. *)
Example subscribe_after_destroy :
  (subscribe 8%nat destroyed_store).2 = Throw TypeError.
Proof. vm_compute. reflexivity. Qed.

(** ** bootstrap.js *)

Import Bootstrap.

Lemma pretty_N_go_nonempty (x : N) (s : string) : s ≠ "" → pretty_N_go x s ≠ "".
Proof.
  revert s. induction (N.lt_wf_0 x) as [x _ IH]; intros s Hs.
  assert (x = 0 ∨ 0 < x)%N as [->|Hx] by lia.
  - by rewrite pretty_N_go_0.
  - rewrite pretty_N_go_step by done. apply IH; [by apply N.div_lt|done].
Qed.

Lemma pretty_nat_nonempty (n : nat) : pretty n ≠ "".
Proof.
  unfold pretty, pretty_nat, pretty, pretty_N.
  case_decide as Hn; [done|].
  rewrite pretty_N_go_step by lia. by apply pretty_N_go_nonempty.
Qed.

Lemma numbered_window_truthy t w win :
  numbered t → windows t !! w = Some win → truthy (browser_id (window t w)) = true.
Proof.
  intros (_ & Hall & _) Hw. unfold window. rewrite Hw. cbn.
  destruct (Hall w win Hw) as (k & _ & -> & _). cbn.
  rewrite bool_decide_eq_false_2; [done|apply pretty_nat_nonempty].
Qed.

Lemma numbered_observe t w : numbered t → numbered (observe w t).
Proof.
  intros Hn. unfold observe, onNewBrowserCreated.
  destruct w as [w|]; [|done].
  destruct (windows t !! w) as [win|] eqn:Hw.
  { by rewrite (numbered_window_truthy t w win Hn Hw). }
  unfold window. rewrite Hw. cbn.
  destruct Hn as (Hsize & Hall & Hinj). split; [|split]; cbn.
  - rewrite map_size_insert_None by done. by rewrite Hsize.
  - intros w0 win0. rewrite lookup_insert_Some.
    intros [[<- <-]|[_ Hw0]].
    + exists (S (_browserCount t)). split; [lia|done].
    + destruct (Hall w0 win0 Hw0) as (k & Hk & Hid & Ho).
      exists k. split; [lia|done].
  - intros w1 w2 win1 win2. rewrite !lookup_insert_Some.
    intros [[<- <-]|[Hn1 H1]] [[<- <-]|[Hn2 H2]] Heq; try done.
    + destruct (Hall w2 win2 H2) as (k & Hk & Hid & _).
      cbn in Heq. rewrite Hid in Heq. injection Heq as Heq.
      apply (inj pretty) in Heq. lia.
    + destruct (Hall w1 win1 H1) as (k & Hk & Hid & _).
      cbn in Heq. rewrite Hid in Heq. injection Heq as Heq.
      apply (inj pretty) in Heq. lia.
    + by eapply Hinj.
Qed.

Lemma windows_after_answers answers :
  dom (windows (after_answers answers))
  = list_to_set (omap (λ w, w) answers)
  ∧ numbered (after_answers answers).
Proof.
  unfold after_answers.
  induction answers as [|w answers IH] using rev_ind.
  - cbn. split; [apply dom_empty_L|].
    split; [done|]. split; [intros w win|intros w w' win win']; cbn;
      by rewrite lookup_empty.
  - rewrite foldl_app. cbn [foldl].
    destruct IH as [Hdom Hn]. split; [|by apply numbered_observe].
    rewrite omap_app, list_to_set_app_L, <- Hdom. cbn.
    set (t := foldl (λ t w, observe w t) loaded answers) in *.
    unfold observe, onNewBrowserCreated. destruct w as [w|]; cbn.
    2: { apply set_eq. set_solver. }
    destruct (windows t !! w) as [win|] eqn:Hw.
    + rewrite (numbered_window_truthy t w win Hn Hw). cbn.
      assert (w ∈ dom (windows t)) by (apply elem_of_dom; eauto).
      apply set_eq. set_solver.
    + unfold window. rewrite Hw. cbn. rewrite dom_insert_L.
      apply set_eq. set_solver.
Qed.

(** X19: however often [startup] and the startup observer run
    [onNewBrowserCreated], and whichever windows the mediator returns: the
    windows written to are exactly the windows returned; each carries one
    count between 1 and [_browserCount] as its attribute and has the
    overlay loaded exactly once; no two windows carry the same count; and
    [_browserCount] is the number of these windows. *)
Theorem browser_windows_numbered_once (answers : list (option nat)) :
  dom (Bootstrap.windows (Bootstrap.after_answers answers))
  = list_to_set (omap (λ w, w) answers)
  ∧ Bootstrap.numbered (Bootstrap.after_answers answers).
Proof. apply windows_after_answers. Qed.

(** Three notifications for two windows: two counts, one overlay each. *)
Example two_windows_three_notifications :
  Bootstrap.after_answers [Some 5%nat; Some 5%nat; Some 9%nat]
  = {| Bootstrap._browserCount := 2;
       Bootstrap.windows :=
         {[ 5%nat := {| Bootstrap.browser_id := Some "1";
                        Bootstrap.overlays := [Bootstrap.OVERLAY] |};
            9%nat := {| Bootstrap.browser_id := Some "2";
                        Bootstrap.overlays := [Bootstrap.OVERLAY] |} ]} |}.
Proof. vm_compute. reflexivity. Qed.
